(** * update_publications.py: a shallow embedding and its properties

    The script scrapes a paginated publication listing, keeps the records
    from [START_YEAR] on, renders them as a marker-delimited block of
    markup and splices that block into [papers/index.html].

    Text is modelled as a list of characters ([list ascii]); Python's
    [int] as [Z]; a raised exception as a constructor of [exn].  The
    markup of a fetched page is modelled by what the CSS selections of
    [parse_rows] return on it. *)

From Stdlib Require Import Ascii String DecimalString.
From Stdlib Require Import List ZArith Lia Bool Arith PeanoNat.
From Stdlib Require Import Sorted Permutation.
Import ListNotations.

Open Scope list_scope.

(** ** Text *)

Definition str := list ascii.

Definition lit (s : string) : str := list_ascii_of_string s.

Definition dq : ascii := ascii_of_nat 34.
Definition nl : ascii := ascii_of_nat 10.
Definition lt_char : ascii := ascii_of_nat 60.

Module Text.

(** [s.startswith(p)] *)
Fixpoint startswith (p s : str) : bool :=
  match p, s with
  | [], _ => true
  | _ :: _, [] => false
  | a :: p', b :: s' => Ascii.eqb a b && startswith p' s'
  end.

(** [s.find(p)]: the lowest index at which [p] occurs in [s], counted from
    [i] for the text still to scan. *)
Fixpoint find_from (p s : str) (i : nat) : option nat :=
  if startswith p s then Some i
  else match s with
       | [] => None
       | _ :: s' => find_from p s' (S i)
       end.

Definition find (p s : str) : option nat := find_from p s 0.

(** [p in s] *)
Definition contains (p s : str) : bool :=
  match find p s with Some _ => true | None => false end.

(** [s.endswith(p)] *)
Definition endswith (p s : str) : bool :=
  (length p <=? length s) && startswith p (skipn (length s - length p) s).

(** [sep.join(parts)] *)
Fixpoint join (sep : str) (parts : list str) : str :=
  match parts with
  | [] => []
  | [x] => x
  | x :: rest => x ++ sep ++ join sep rest
  end.

End Text.

(** ** Module constants *)

Definition START_YEAR : Z := 2018.

Definition MARKER_START : str := lit "<!-- AUTO-GENERATED PUBLICATIONS START -->".
Definition MARKER_END : str := lit "<!-- AUTO-GENERATED PUBLICATIONS END -->".

(** The insertion anchor of [inject_html]:
    two spaces, then the 2017 heading. *)
Definition anchor : str :=
  lit "  <div class=" ++ [dq] ++ lit "bigtitle" ++ [dq] ++ lit ">2017</div>".

(** ** Exceptions *)

Inductive exn : Type :=
| SystemExit (msg : str)
| ValueError
| HTTPError
| OSError.

Inductive result (A : Type) : Type :=
| Ok (a : A)
| Raise (e : exn).
Arguments Ok {A} a.
Arguments Raise {A} e.

(** ** inject_html *)

Definition missing_anchor_msg : str :=
  lit "Could not find insertion anchor in papers/index.html".

(** [s.index(p)]: the lowest index of [p] in [s]; [ValueError] when [p]
    does not occur. *)
Definition index (p s : str) : result nat :=
  match Text.find p s with
  | Some i => Ok i
  | None => Raise ValueError
  end.

Definition bind_result {A B} (r : result A) (k : A -> result B) : result B :=
  match r with
  | Ok a => k a
  | Raise e => Raise e
  end.

Notation "'let?' x := r 'in' k" := (bind_result r (fun x => k))
  (at level 10, x name, r at level 100, k at level 200).

Definition inject_html (existing new_block : str) : result str :=
  if Text.contains MARKER_START existing && Text.contains MARKER_END existing then
    let? start := index MARKER_START existing in
    let? e := index MARKER_END existing in
    let end_ := e + length MARKER_END in
    Ok (firstn start existing ++ new_block ++ skipn end_ existing)
  else if negb (Text.contains anchor existing) then
    Raise (SystemExit missing_anchor_msg)
  else
    let? idx := index anchor existing in
    Ok (firstn idx existing ++ new_block ++ [nl] ++ skipn idx existing).

(** ** Python text helpers used by the parser and the renderer *)

Module Py.

(** [c.isspace()] on the code points below 256. *)
Definition isspace (c : ascii) : bool :=
  let n := nat_of_ascii c in
  ((9 <=? n) && (n <=? 13)) || ((28 <=? n) && (n <=? 32))
  || (n =? 133) || (n =? 160).

Fixpoint lstrip (s : str) : str :=
  match s with
  | c :: s' => if isspace c then lstrip s' else s
  | [] => []
  end.

Definition rstrip (s : str) : str := rev (lstrip (rev s)).

(** [s.strip()] *)
Definition strip (s : str) : str := rstrip (lstrip s).

(** The decimal digits [0] to [9]: what [int] accepts. *)
Definition isdecimal_char (c : ascii) : bool :=
  let n := nat_of_ascii c in (48 <=? n) && (n <=? 57).

(** [c.isdigit()] on the code points below 256: the decimal digits and
    the superscripts one, two and three. *)
Definition isdigit_char (c : ascii) : bool :=
  let n := nat_of_ascii c in
  isdecimal_char c || (n =? 178) || (n =? 179) || (n =? 185).

(** [s.isdigit()]: every character is a digit and there is at least one. *)
Definition isdigit (s : str) : bool :=
  match s with
  | [] => false
  | _ => forallb isdigit_char s
  end.

Definition digit_value (c : ascii) : Z := Z.of_nat (nat_of_ascii c) - 48.

(** The interpreter's default limit on the number of digits in a
    conversion between [int] and [str]. *)
Definition int_max_str_digits : nat := 4300.

(** [int(s)] on a text that passed [isdigit]: [None] stands for the
    [ValueError] raised on a digit that is not decimal, or on a text of
    more digits than the limit. *)
Definition int (s : str) : option Z :=
  if (length s <=? int_max_str_digits) && forallb isdecimal_char s
  then Some (fold_left (fun acc c => 10 * acc + digit_value c)%Z s 0%Z)
  else None.

(** [str(n)], for a number of at most [int_max_str_digits] digits, as every
    year read by [int] and every length of a list here is; on a longer one
    the conversion raises, which this total function does not show. *)
Definition str_of_int (n : Z) : str := lit (NilZero.string_of_int (Z.to_int n)).

(** [html.escape(s)], with [quote=True]. *)
Definition escape_char (c : ascii) : str :=
  let n := nat_of_ascii c in
  if n =? 38 then lit "&amp;"
  else if n =? 60 then lit "&lt;"
  else if n =? 62 then lit "&gt;"
  else if n =? 34 then lit "&quot;"
  else if n =? 39 then lit "&#x27;"
  else [c].

Definition escape (s : str) : str := flat_map escape_char s.

End Py.

(** ** Data model *)

Record Publication : Type := mkPublication {
  year : Z;
  title : str;
  link : str;
  venue : str
}.

(** What [parse_rows] selects from a page.  A [Tag] is the element matched
    by [a.gsc_a_at]: its text and its [href] attribute, if it has one. *)
Record Tag : Type := mkTag {
  tag_text : str;
  tag_href : option str
}.

(** One [tr.gsc_a_tr] element: the text of the first [td.gsc_a_y span]
    under it, the first [a.gsc_a_at] under it, and the texts of its
    [div.gs_gray] descendants, each absent when nothing matches. *)
Record Row : Type := mkRow {
  year_span : option str;
  link_tag : option Tag;
  detail_lines : list str
}.

(** A fetched page: the rows [soup.select] returns, in document order. *)
Definition Soup := list Row.

(** ** parse_rows *)

Definition scholar_host : str := lit "https://scholar.google.com".

Definition get_href (t : Tag) : str :=
  match tag_href t with Some h => h | None => [] end.

Definition venue_of (lines : list str) : str :=
  match lines with
  | _ :: second :: _ => Py.strip second
  | _ => []
  end.

(** The [for] loop of [parse_rows]; [publications] is the list built so
    far.  [continue] is the recursive call on the remaining rows, [break]
    returns the list as it stands. *)
Fixpoint parse_rows_loop (rows : list Row) (publications : list Publication)
  : result (list Publication) :=
  match rows with
  | [] => Ok publications
  | row :: rest =>
      match year_span row with
      | None => parse_rows_loop rest publications
      | Some span_text =>
          let year_text := Py.strip span_text in
          if negb (Py.isdigit year_text) then parse_rows_loop rest publications
          else
            match Py.int year_text with
            | None => Raise ValueError
            | Some y =>
                if (y <? START_YEAR)%Z then Ok publications
                else
                  match link_tag row with
                  | None => parse_rows_loop rest publications
                  | Some tag =>
                      let t := Py.strip (tag_text tag) in
                      let l := scholar_host ++ get_href tag in
                      let v := venue_of (detail_lines row) in
                      parse_rows_loop rest
                        (publications ++ [mkPublication y t l v])
                  end
            end
      end
  end.

Definition parse_rows (soup : Soup) : result (list Publication) :=
  parse_rows_loop soup [].

(** ** The run: network, document file, standard output *)

Inductive Event : Type :=
| Fetched (cstart : Z)
| ReadText
| WroteText (s : str)
| Printed (s : str).

(** [listing] answers [fetch_page]: the page at an offset, or the
    exception of a failed request.  [document] is the content of
    [PAPERS_INDEX], [None] when the file does not exist.  [trace] records
    what the run did, oldest event first. *)
Record World : Type := mkWorld {
  listing : Z -> result Soup;
  document : option str;
  papers_index : str;
  trace : list Event
}.

Definition log (e : Event) (w : World) : World :=
  mkWorld (listing w) (document w) (papers_index w) (trace w ++ [e]).

Definition set_document (s : str) (w : World) : World :=
  mkWorld (listing w) (Some s) (papers_index w) (trace w).

(** A computation either runs out of fuel ([None]) or ends in a value or a
    raised exception, with the world it leaves behind. *)
Definition M (A : Type) : Type := World -> option (result A * World).

Definition ret {A} (a : A) : M A := fun w => Some (Ok a, w).
Definition raise {A} (e : exn) : M A := fun w => Some (Raise e, w).
Definition lift {A} (r : result A) : M A := fun w => Some (r, w).
Definition diverge {A} : M A := fun _ => None.

Definition bind {A B} (m : M A) (k : A -> M B) : M B :=
  fun w =>
    match m w with
    | None => None
    | Some (Raise e, w') => Some (Raise e, w')
    | Some (Ok a, w') => k a w'
    end.

Declare Scope run_scope.
Delimit Scope run_scope with run.
Notation "x <- m ;; k" := (bind m (fun x => k))
  (at level 61, m at next level, right associativity) : run_scope.
Notation "m ;;; k" := (bind m (fun _ => k))
  (at level 61, right associativity) : run_scope.
Open Scope run_scope.

Definition fetch_page (cstart : Z) : M Soup :=
  fun w => Some (listing w cstart, log (Fetched cstart) w).

(** [print(s)], on a standard output that accepts the text. *)
Definition print (s : str) : M unit :=
  fun w => Some (Ok tt, log (Printed s) w).

Definition read_text : M str :=
  fun w =>
    match document w with
    | Some s => Some (Ok s, log ReadText w)
    | None => Some (Raise OSError, log ReadText w)
    end.

(** [PAPERS_INDEX.write_text(s)], on a file system that completes the
    write; a write that fails, before or after the file is truncated, is
    not modelled. *)
Definition write_text (s : str) : M unit :=
  fun w => Some (Ok tt, log (WroteText s) (set_document s w)).

(** ** fetch_publications *)

(** The [while True] loop, one iteration per unit of fuel. *)
Fixpoint fetch_publications_loop (fuel : nat) (cstart : Z)
    (all_pubs : list Publication) : M (list Publication) :=
  match fuel with
  | O => diverge
  | S fuel' =>
      soup <- fetch_page cstart ;;
      pubs <- lift (parse_rows soup) ;;
      match pubs with
      | [] => ret all_pubs
      | p :: ps =>
          let all_pubs := all_pubs ++ pubs in
          let last_year := year (last ps p) in
          if (last_year <? START_YEAR)%Z then ret all_pubs
          else fetch_publications_loop fuel' (cstart + 20)%Z all_pubs
      end
  end.

Definition fetch_publications (fuel : nat) : M (list Publication) :=
  fetch_publications_loop fuel 0%Z [].

(** ** chunk *)

(** [range(start, stop, step)] for a positive [step]; [fuel] bounds the
    number of elements. *)
Fixpoint range_from (fuel start stop step : nat) : list nat :=
  match fuel with
  | O => []
  | S fuel' =>
      if start <? stop then start :: range_from fuel' (start + step) stop step
      else []
  end.

Definition range (stop step : nat) : list nat := range_from stop 0 stop step.

(** [items[i:j]] for [0 <= i <= j] *)
Definition slice {A} (items : list A) (i j : nat) : list A :=
  firstn (j - i) (skipn i items).

(** The slices the generator yields, in order.  The only call passes
    [size = 3]; for [size = 0] Python's [range] raises, which is not
    modelled. *)
Definition chunk {A} (items : list A) (size : nat) : list (list A) :=
  map (fun i => slice items i (i + size)) (range (length items) size).

(** ** build_html *)

(** [by_year]: a [dict], kept in insertion order. *)
Definition Dict := list (Z * list Publication).

(** [d.setdefault(k, []).append(pub)] *)
Fixpoint setdefault_append (d : Dict) (k : Z) (pub : Publication) : Dict :=
  match d with
  | [] => [(k, [pub])]
  | (k', v) :: d' =>
      if (k' =? k)%Z then (k', v ++ [pub]) :: d'
      else (k', v) :: setdefault_append d' k pub
  end.

Definition group_by_year (pubs : list Publication) : Dict :=
  fold_left (fun d pub => setdefault_append d (year pub) pub) pubs [].

Definition keys (d : Dict) : list Z := map fst d.

(** [d[k]] for a key that is present. *)
Fixpoint getitem (d : Dict) (k : Z) : list Publication :=
  match d with
  | [] => []
  | (k', v) :: d' => if (k' =? k)%Z then v else getitem d' k
  end.

Fixpoint insert_desc (k : Z) (l : list Z) : list Z :=
  match l with
  | [] => [k]
  | x :: l' => if (x <? k)%Z then k :: l else x :: insert_desc k l'
  end.

(** [sorted(ks, reverse=True)] *)
Definition sorted_reverse (ks : list Z) : list Z :=
  fold_right insert_desc [] ks.

Definition q (s : string) : str := [dq] ++ lit s ++ [dq].

Definition card (pub : Publication) : str :=
  let title := Py.escape (title pub) in
  let venue := Py.escape (venue pub) in
  let link := Py.escape (link pub) in
  lit "      <div class=" ++ q "col-md-4 paperbox" ++ lit ">" ++ [nl]
  ++ lit "        <div class=" ++ q "media" ++ lit ">" ++ [nl]
  ++ lit "          <div class=" ++ q "media-body" ++ lit ">" ++ [nl]
  ++ lit "            <div class=" ++ q "smallhead media-heading" ++ lit ">" ++ [nl]
  ++ lit "              <a href=" ++ [dq] ++ link ++ [dq] ++ lit " class="
       ++ q "off" ++ lit ">" ++ title ++ lit "</a>" ++ [nl]
  ++ lit "            </div>" ++ [nl]
  ++ lit "            <p class=" ++ q "note" ++ lit "><i>" ++ venue
       ++ lit "</i></p>" ++ [nl]
  ++ lit "          </div>" ++ [nl]
  ++ lit "        </div>" ++ [nl]
  ++ lit "      <div class=" ++ q "bigspacer" ++ lit "></div><div class="
       ++ q "spacer" ++ lit "></div>" ++ [nl]
  ++ lit "      </div>".

(** The parts appended for one [group] of the inner loop. *)
Definition row_parts (group : list Publication) : list str :=
  [lit "  <div class=" ++ q "row" ++ lit ">"]
  ++ map card group
  ++ [lit "  </div>"; []].

(** The parts appended for one [year] of the outer loop. *)
Definition year_parts (by_year : Dict) (y : Z) : list str :=
  [lit "  <div class=" ++ q "bigtitle" ++ lit ">" ++ Py.str_of_int y ++ lit "</div>";
   lit "  <div class=" ++ q "spacer" ++ lit "></div>"]
  ++ flat_map row_parts (chunk (getitem by_year y) 3).

Definition build_parts (pubs : list Publication) : list str :=
  let by_year := group_by_year pubs in
  [MARKER_START]
  ++ flat_map (year_parts by_year) (sorted_reverse (keys by_year))
  ++ [MARKER_END; []].

Definition build_html (pubs : list Publication) : str :=
  Text.join [nl] (build_parts pubs).

(** ** main *)

Definition inserted_msg (n : nat) (path : str) : str :=
  lit "Inserted " ++ Py.str_of_int (Z.of_nat n) ++ lit " publications (>= "
  ++ Py.str_of_int START_YEAR ++ lit ") into " ++ path ++ lit ".".

Definition main (fuel : nat) : M Z :=
  pubs <- fetch_publications fuel ;;
  match pubs with
  | [] => print (lit "No publications fetched.") ;;; ret 1%Z
  | _ :: _ =>
      let html_block := build_html pubs in
      current <- read_text ;;
      updated <- lift (inject_html current html_block) ;;
      write_text updated ;;;
      (fun w => print (inserted_msg (length pubs) (papers_index w)) w) ;;;
      ret 0%Z
  end.

(** The status the process ends with under [sys.exit(main())].  When the
    interpreter can flush the standard streams on its way out
    ([flush_ok]), it is the value [main] returned (0 or 1 here), or 1 for
    an exception that reaches the top level, [SystemExit] carrying a
    message included; when it cannot, the status is 120 whatever [main]
    did. *)
Definition exit_status (flush_ok : bool) (r : result Z) : Z :=
  if flush_ok then
    match r with
    | Ok n => n
    | Raise _ => 1%Z
    end
  else 120%Z.

(** The script run as a program: [sys.exit(main())]. *)
Definition script (fuel : nat) (flush_ok : bool) (w : World)
  : option (Z * World) :=
  match main fuel w with
  | None => None
  | Some (r, w') => Some (exit_status flush_ok r, w')
  end.

(** ** Predicates used in the statements *)

(** A text in which neither marker literal occurs. *)
Definition no_marker (s : str) : Prop :=
  Text.contains MARKER_START s = false /\ Text.contains MARKER_END s = false.

(** The parts between the two markers, each followed by the separator. *)
Definition body (pubs : list Publication) : str :=
  let by_year := group_by_year pubs in
  flat_map (fun part => part ++ [nl])
           (flat_map (year_parts by_year) (sorted_reverse (keys by_year))).

(** The year a row shows: the stripped text of its year element when that
    is all digits and reads as a number. *)
Definition row_year (row : Row) : option Z :=
  match year_span row with
  | Some span_text =>
      if Py.isdigit (Py.strip span_text) then Py.int (Py.strip span_text)
      else None
  | None => None
  end.

(** A row qualifies structurally when it shows a numeric year and has a
    title link; this is the record it stands for. *)
Definition record_of (row : Row) : option Publication :=
  match row_year row, link_tag row with
  | Some y, Some tag =>
      Some (mkPublication y (Py.strip (tag_text tag))
                          (scholar_host ++ get_href tag)
                          (venue_of (detail_lines row)))
  | _, _ => None
  end.

Definition structural_records (rows : list Row) : list Publication :=
  flat_map (fun row => match record_of row with Some p => [p] | None => [] end)
           rows.

Definition below_cutoff (row : Row) : bool :=
  match row_year row with
  | Some y => (y <? START_YEAR)%Z
  | None => false
  end.

(** The rows that precede the first row showing a year below the cutoff. *)
Fixpoint before_cutoff (rows : list Row) : list Row :=
  match rows with
  | [] => []
  | row :: rest => if below_cutoff row then [] else row :: before_cutoff rest
  end.

(** A year text that passes [isdigit] and that [int] rejects. *)
Definition unreadable_year (row : Row) : bool :=
  match year_span row with
  | Some span_text =>
      Py.isdigit (Py.strip span_text)
      && match Py.int (Py.strip span_text) with None => true | Some _ => false end
  | None => false
  end.

(** Example pages. *)
Definition row_of (y : string) (t : string) : Row :=
  mkRow (Some (lit y)) (Some (mkTag (lit t) (Some (lit "/citations?p=1"))))
        [lit "A Author"; lit "Some Journal"].

Definition page_2017 : Soup := [row_of "2017" "An older paper"].

Definition page_blank_title : Soup := [row_of "2020" "  "].

(** What the crawl gets from the page at the [k]-th offset. *)
Definition page_records (l : Z -> result Soup) (k : nat)
  : result (list Publication) :=
  match l (20 * Z.of_nat k)%Z with
  | Ok soup => parse_rows soup
  | Raise e => Raise e
  end.

Definition records_at (l : Z -> result Soup) (k : nat) : list Publication :=
  match page_records l k with
  | Ok pubs => pubs
  | Raise _ => []
  end.

Definition add_trace (es : list Event) (w : World) : World :=
  mkWorld (listing w) (document w) (papers_index w) (trace w ++ es).

(** The offsets of the first [n] pages. *)
Definition fetches (n : nat) : list Event :=
  map (fun k => Fetched (20 * Z.of_nat k)%Z) (seq 0 n).

(** The year shown by the last row of a page. *)
Definition last_row_year (soup : Soup) : option Z :=
  match rev soup with
  | row :: _ => row_year row
  | [] => None
  end.

(** A listing of three pages whose last rows show 2022, 2019 and 2017;
    every further offset answers with an empty page. *)
Definition listing3 (cstart : Z) : result Soup :=
  if (cstart =? 0)%Z then Ok [row_of "2022" "First"]
  else if (cstart =? 20)%Z then Ok [row_of "2019" "Second"]
  else if (cstart =? 40)%Z then Ok [row_of "2018" "Third"; row_of "2017" "Fourth"]
  else Ok [].

Definition index_html : str :=
  lit "<html>" ++ [nl] ++ MARKER_START ++ [nl] ++ lit "old" ++ [nl]
  ++ MARKER_END ++ [nl] ++ lit "</html>" ++ [nl].

Definition world3 : World :=
  mkWorld listing3 (Some index_html) (lit "/site/papers/index.html") [].

Definition pub_of (y : Z) (t : string) : Publication :=
  mkPublication y (lit t) (scholar_host ++ lit "/citations?p=1")
                (lit "Some Journal").

Definition is_fetched (e : Event) : bool :=
  match e with Fetched _ => true | _ => false end.

Definition is_write (e : Event) : bool :=
  match e with WroteText _ => true | _ => false end.

Definition is_read (e : Event) : bool :=
  match e with ReadText => true | _ => false end.

(** A document with neither markers nor anchor, and a world holding it. *)
Definition bare_html : str := lit "<html><body>No publications yet</body></html>".

Definition world_bare : World :=
  mkWorld listing3 (Some bare_html) (lit "/site/papers/index.html") [].

(** A world whose listing is empty from the first page on. *)
Definition world_empty : World :=
  mkWorld (fun _ => Ok []) (Some index_html) (lit "/site/papers/index.html") [].

Definition is_lt (c : ascii) : bool := nat_of_ascii c =? 60.
Definition is_bang (c : ascii) : bool := nat_of_ascii c =? 33.

(** A text in which no [<] is the last character or is followed by [!]:
    no comment opens in it. *)
Fixpoint safe (s : str) : bool :=
  match s with
  | [] => true
  | c :: s' =>
      if is_lt c then
        match s' with
        | [] => false
        | c2 :: _ => negb (is_bang c2) && safe s'
        end
      else safe s'
  end.

(** One record, for the examples. *)
Definition pubs1 : list Publication := [pub_of 2020 "A <b> & c"].

(** The events of fetching [n] successive pages from the [i]-th on. *)
Definition fetches_from (i n : nat) : list Event :=
  map (fun k => Fetched (20 * Z.of_nat k)%Z) (seq i n).

(** A listing that has a record on every page, and one whose second page
    cannot be fetched. *)
Definition listing_endless (cstart : Z) : result Soup :=
  Ok [row_of "2024" "Again"].

Definition listing_broken (cstart : Z) : result Soup :=
  if (cstart =? 0)%Z then Ok [row_of "2022" "First"] else Raise HTTPError.

Definition world_broken : World :=
  mkWorld listing_broken (Some index_html) (lit "/site/papers/index.html") [].

(** The characters [html.escape] replaces, and those among them that are
    markup: [<], [>] and the two quotes. *)
Definition is_special (c : ascii) : bool :=
  let n := nat_of_ascii c in
  (n =? 38) || (n =? 60) || (n =? 62) || (n =? 34) || (n =? 39).

Definition is_markup (c : ascii) : bool :=
  let n := nat_of_ascii c in
  (n =? 60) || (n =? 62) || (n =? 34) || (n =? 39).

(** The parts of the fragment by their opening: a card opens with its
    [paperbox] element, a heading with its [bigtitle] element. *)
Definition card_open : str :=
  lit "      <div class=" ++ q "col-md-4 paperbox" ++ lit ">".

Definition heading_open : str :=
  lit "  <div class=" ++ q "bigtitle" ++ lit ">".

Definition is_card_part (part : str) : bool := Text.startswith card_open part.

Definition is_heading_part (part : str) : bool :=
  Text.startswith heading_open part.

(** The heading emitted for a year. *)
Definition heading_part (y : Z) : str :=
  lit "  <div class=" ++ q "bigtitle" ++ lit ">" ++ Py.str_of_int y
  ++ lit "</div>".

(** The spacer emitted under a heading. *)
Definition spacer_part : str :=
  lit "  <div class=" ++ q "spacer" ++ lit "></div>".

(** * Properties *)

(** ** Searching a text *)

Section Search.

Import Text.

Lemma startswith_app (p t : str) : startswith p (p ++ t) = true.
Proof.
  induction p as [|a p IH]; simpl; [reflexivity|].
  now rewrite Ascii.eqb_refl, IH.
Qed.

Lemma startswith_inv (p s : str) :
  startswith p s = true -> exists t, s = p ++ t.
Proof.
  revert s; induction p as [|a p IH]; intros s H.
  - now exists s.
  - destruct s as [|b s]; simpl in H; [discriminate|].
    apply andb_true_iff in H as [Hab Hps].
    apply Ascii.eqb_eq in Hab; subst b.
    destruct (IH _ Hps) as [t ->]. now exists t.
Qed.

Lemma find_from_shift (p s : str) (i : nat) :
  find_from p s i = option_map (Nat.add i) (find p s).
Proof.
  unfold find. revert i; induction s as [|b s IH]; intros i; simpl.
  - destruct (startswith p []); simpl; [f_equal; lia | reflexivity].
  - destruct (startswith p (b :: s)); simpl; [f_equal; lia|].
    rewrite (IH (S i)), (IH 1).
    destruct (find_from p s 0); simpl; [f_equal; lia | reflexivity].
Qed.

Lemma find_here (p t : str) : find p (p ++ t) = Some 0.
Proof.
  unfold find. destruct (p ++ t) eqn:E; simpl; rewrite <- E, startswith_app;
    reflexivity.
Qed.

Lemma find_cons_miss (p : str) (b : ascii) (s : str) :
  startswith p (b :: s) = false ->
  find p (b :: s) = option_map S (find p s).
Proof.
  intros H. unfold find at 1. simpl. rewrite H.
  now rewrite find_from_shift.
Qed.

Lemma find_None_cons (p : str) (b : ascii) (s : str) :
  find p (b :: s) = None -> startswith p (b :: s) = false /\ find p s = None.
Proof.
  unfold find at 1. simpl. destruct (startswith p (b :: s)); [discriminate|].
  rewrite find_from_shift. destruct (find p s); [discriminate|auto].
Qed.

(** A match of [p] against [a ++ c :: t] lies inside [a] when [c] does
    not occur in [p]. *)
Lemma startswith_before (c : ascii) (p a t : str) :
  ~ In c p -> startswith p (a ++ c :: t) = true -> startswith p a = true.
Proof.
  revert a; induction p as [|y p IH]; intros a Hc H; [reflexivity|].
  destruct a as [|x a]; simpl in *.
  - apply andb_true_iff in H as [Hy _]. apply Ascii.eqb_eq in Hy.
    exfalso; apply Hc; now left.
  - apply andb_true_iff in H as [Hy Hp]. rewrite Hy; simpl.
    apply IH; [intros Hin; apply Hc; now right | exact Hp].
Qed.

Variable c : ascii.
Variable p' : str.
Hypothesis head_unique : ~ In c p'.

Let pat := c :: p'.

(** The first occurrence of a pattern whose first character occurs
    nowhere else in it cannot straddle the end of a text it does not
    occur in. *)
Lemma find_after (a t : str) :
  find pat a = None ->
  find pat (a ++ c :: t) = option_map (Nat.add (length a)) (find pat (c :: t)).
Proof.
  induction a as [|x a IH]; intros Hn.
  - simpl. now destruct (find pat (c :: t)).
  - apply find_None_cons in Hn as [Hs Hn].
    change ((x :: a) ++ c :: t) with (x :: (a ++ c :: t)).
    rewrite find_cons_miss.
    + rewrite (IH Hn). destruct (find pat (c :: t)); reflexivity.
    + destruct (startswith pat (x :: a ++ c :: t)) eqn:E; [|reflexivity].
      unfold pat in *. simpl in E, Hs.
      apply andb_true_iff in E as [E1 E2].
      rewrite E1 in Hs; simpl in Hs.
      now rewrite (startswith_before c p' a t head_unique E2) in Hs.
Qed.

(** A stretch of text without the pattern's first character is skipped. *)
Lemma find_skip (u s : str) :
  ~ In c u ->
  find pat (u ++ s) = option_map (Nat.add (length u)) (find pat s).
Proof.
  induction u as [|x u IH]; intros Hu.
  - simpl. now destruct (find pat s).
  - change ((x :: u) ++ s) with (x :: (u ++ s)).
    rewrite find_cons_miss.
    + rewrite IH by (intros Hin; apply Hu; now right).
      destruct (find pat s); reflexivity.
    + unfold pat; simpl.
      destruct (Ascii.eqb c x) eqn:E; [|reflexivity].
      apply Ascii.eqb_eq in E. exfalso; apply Hu; now left.
Qed.

Lemma find_after_here (a t : str) :
  find pat a = None -> find pat (a ++ pat ++ t) = Some (length a).
Proof.
  intros Hn. unfold pat at 2. change ((c :: p') ++ t) with (c :: (p' ++ t)).
  rewrite (find_after a (p' ++ t) Hn).
  change (c :: p' ++ t) with (pat ++ t). rewrite find_here.
  simpl. f_equal. lia.
Qed.

End Search.

(** ** The marker literals *)

Lemma not_In_forallb (c : ascii) (l : str) :
  forallb (fun x => negb (Ascii.eqb c x)) l = true -> ~ In c l.
Proof.
  intros H Hin. rewrite forallb_forall in H. specialize (H c Hin).
  now rewrite Ascii.eqb_refl in H.
Qed.

Lemma MARKER_START_head : MARKER_START = lt_char :: tl MARKER_START.
Proof. reflexivity. Qed.

Lemma MARKER_END_head : MARKER_END = lt_char :: tl MARKER_END.
Proof. reflexivity. Qed.

Lemma MARKER_START_tail : ~ In lt_char (tl MARKER_START).
Proof. apply not_In_forallb. reflexivity. Qed.

Lemma MARKER_END_tail : ~ In lt_char (tl MARKER_END).
Proof. apply not_In_forallb. reflexivity. Qed.

Lemma END_not_at_START (t : str) :
  Text.startswith MARKER_END (MARKER_START ++ t) = false.
Proof. reflexivity. Qed.

Lemma contains_false (p s : str) :
  Text.contains p s = false <-> Text.find p s = None.
Proof.
  unfold Text.contains. destruct (Text.find p s); split; congruence.
Qed.

Lemma contains_true (p s : str) (n : nat) :
  Text.find p s = Some n -> Text.contains p s = true.
Proof. unfold Text.contains. now intros ->. Qed.

Lemma firstn_length_app {A} (a b : list A) : firstn (length a) (a ++ b) = a.
Proof. induction a; simpl; congruence. Qed.

Lemma skipn_length_app {A} (a b : list A) : skipn (length a) (a ++ b) = b.
Proof. induction a; simpl; congruence. Qed.

(** Where the markers are first found in a document that has the pair
    after a marker-free prefix and around a marker-free infix. *)
Lemma find_START_in_doc (A rest : str) :
  Text.contains MARKER_START A = false ->
  Text.find MARKER_START (A ++ MARKER_START ++ rest) = Some (length A).
Proof.
  intros HA. rewrite MARKER_START_head.
  apply (find_after_here lt_char (tl MARKER_START) MARKER_START_tail).
  rewrite <- MARKER_START_head. now apply contains_false.
Qed.

Lemma find_END_in_doc (A old rest : str) :
  Text.contains MARKER_END A = false ->
  Text.contains MARKER_END old = false ->
  Text.find MARKER_END (A ++ MARKER_START ++ old ++ MARKER_END ++ rest)
  = Some (length A + length MARKER_START + length old).
Proof.
  intros HA Hold.
  apply contains_false in HA. apply contains_false in Hold.
  pose proof (find_after lt_char (tl MARKER_END) MARKER_END_tail) as Hafter.
  pose proof (find_skip lt_char (tl MARKER_END)) as Hskip.
  pose proof (find_after_here lt_char (tl MARKER_END) MARKER_END_tail) as Hhere.
  rewrite <- MARKER_END_head in Hafter, Hskip, Hhere.
  set (X := old ++ MARKER_END ++ rest).
  assert (HX : Text.find MARKER_END X = Some (length old))
    by (apply Hhere; exact Hold).
  assert (HS : Text.find MARKER_END (MARKER_START ++ X)
               = Some (length MARKER_START + length old)).
  { rewrite MARKER_START_head at 1.
    change ((lt_char :: tl MARKER_START) ++ X)
      with (lt_char :: (tl MARKER_START ++ X)).
    rewrite find_cons_miss
      by (change (lt_char :: tl MARKER_START ++ X) with (MARKER_START ++ X);
          apply END_not_at_START).
    rewrite (Hskip _ _ MARKER_START_tail), HX. reflexivity. }
  rewrite MARKER_START_head at 1.
  change ((lt_char :: tl MARKER_START) ++ X)
    with (lt_char :: (tl MARKER_START ++ X)).
  rewrite (Hafter A _ HA).
  change (lt_char :: tl MARKER_START ++ X) with (MARKER_START ++ X).
  rewrite HS. simpl. f_equal. lia.
Qed.

(** ** C5: splicing over an existing marker pair *)

Lemma inject_html_over_markers (A old B F : str) :
  Text.contains MARKER_START A = false ->
  Text.contains MARKER_END A = false ->
  Text.contains MARKER_END old = false ->
  inject_html (A ++ MARKER_START ++ old ++ MARKER_END ++ B) F
  = Ok (A ++ F ++ B).
Proof.
  intros HA1 HA2 Ho2.
  unfold inject_html.
  pose proof (find_START_in_doc A (old ++ MARKER_END ++ B) HA1) as Hs.
  pose proof (find_END_in_doc A old B HA2 Ho2) as He.
  rewrite (contains_true _ _ _ Hs), (contains_true _ _ _ He).
  unfold index. rewrite Hs, He.
  simpl andb. cbv iota. unfold bind_result. f_equal. f_equal.
  - apply firstn_length_app.
  - f_equal.
    replace (A ++ MARKER_START ++ old ++ MARKER_END ++ B)
      with ((A ++ MARKER_START ++ old ++ MARKER_END) ++ B)
      by (now rewrite <- !app_assoc).
    replace (length A + length MARKER_START + length old + length MARKER_END)
      with (length (A ++ MARKER_START ++ old ++ MARKER_END))
      by (rewrite !length_app; lia).
    apply skipn_length_app.
Qed.

(** The guarded [index] calls never raise: the only exception of
    [inject_html] is the [SystemExit] for the missing anchor. *)
Lemma inject_html_raises_only_SystemExit (existing new_block : str) (e : exn) :
  inject_html existing new_block = Raise e ->
  e = SystemExit missing_anchor_msg.
Proof.
  unfold inject_html, index, Text.contains.
  destruct (Text.find MARKER_START existing);
    destruct (Text.find MARKER_END existing);
    destruct (Text.find anchor existing); simpl; congruence.
Qed.

(** C5.  For every prefix [A], infix [old] and suffix [B] in which no
    marker literal occurs, and every fragment [F], splicing [F] into
    [A + MARKER_START + old + MARKER_END + B] returns exactly [A + F + B]:
    the text from the first start marker through the first end marker is
    replaced and nothing else changes. *)
Theorem inject_html_replaces_marked_region (A old B F : str) :
  no_marker A -> no_marker old -> no_marker B ->
  inject_html (A ++ MARKER_START ++ old ++ MARKER_END ++ B) F
  = Ok (A ++ F ++ B).
Proof.
  intros [HA1 HA2] [_ Ho2] _. now apply inject_html_over_markers.
Qed.

Lemma inject_html_replaces_marked_region_witness :
  inject_html (lit "A" ++ MARKER_START ++ lit "old" ++ MARKER_END ++ lit "B")
              (lit "F")
  = Ok (lit "A" ++ lit "F" ++ lit "B").
Proof.
  apply inject_html_replaces_marked_region; split; reflexivity.
Defined.

(** ** C10: chunking *)

Section Chunk.

Context {A : Type}.
Variable items : list A.
Variable size : nat.
Hypothesis size_pos : 0 < size.

(** The slices yielded from index [i] on. *)
Let chunks_from (fuel i : nat) : list (list A) :=
  map (fun i => slice items i (i + size))
      (range_from fuel i (length items) size).

Lemma slice_size (i : nat) :
  slice items i (i + size) = firstn size (skipn i items).
Proof. unfold slice. f_equal. lia. Qed.

Lemma slice_length (i : nat) :
  length (slice items i (i + size)) = Nat.min size (length items - i).
Proof. now rewrite slice_size, length_firstn, length_skipn. Qed.

Lemma chunks_from_concat (fuel i : nat) :
  length items <= fuel + i ->
  concat (chunks_from fuel i) = skipn i items.
Proof.
  unfold chunks_from. revert i; induction fuel as [|fuel IH]; intros i Hf; simpl.
  - symmetry. apply skipn_all2. lia.
  - destruct (Nat.ltb_spec i (length items)) as [Hlt|Hge]; simpl.
    + rewrite IH by lia. rewrite slice_size.
      rewrite <- (firstn_skipn size (skipn i items)) at 2.
      f_equal. rewrite skipn_skipn. f_equal. lia.
    + symmetry. apply skipn_all2. lia.
Qed.

Lemma chunks_from_bounds (fuel i : nat) :
  Forall (fun c => 1 <= length c <= size) (chunks_from fuel i).
Proof.
  unfold chunks_from. revert i; induction fuel as [|fuel IH]; intros i; simpl.
  - constructor.
  - destruct (Nat.ltb_spec i (length items)) as [Hlt|Hge]; simpl.
    + constructor; [rewrite slice_length; lia | apply IH].
    + constructor.
Qed.

Lemma chunks_from_full (fuel i : nat) :
  Forall (fun c => length c = size) (removelast (chunks_from fuel i)).
Proof.
  unfold chunks_from. revert i; induction fuel as [|fuel IH]; intros i.
  - constructor.
  - cbn [range_from].
    destruct (Nat.ltb_spec i (length items)) as [Hlt|Hge]; [|constructor].
    cbn [map].
    destruct (range_from fuel (i + size) (length items) size) as [|j js] eqn:E.
    + constructor.
    + assert (Hj : i + size < length items).
      { destruct fuel; simpl in E; [discriminate|].
        destruct (Nat.ltb_spec (i + size) (length items)); [lia|discriminate]. }
      change (removelast (?h :: map ?f (j :: js)))
        with (h :: removelast (map f (j :: js))).
      constructor; [rewrite slice_length; lia|].
      rewrite <- E. apply IH.
Qed.

Lemma chunk_concat : concat (chunk items size) = items.
Proof. apply (chunks_from_concat (length items) 0). lia. Qed.

Lemma chunk_bounds : Forall (fun c => 1 <= length c <= size) (chunk items size).
Proof. apply chunks_from_bounds. Qed.

Lemma chunk_full :
  Forall (fun c => length c = size) (removelast (chunk items size)).
Proof. apply chunks_from_full. Qed.

End Chunk.

Lemma flat_map_map_concat {A B} (f : A -> B) (ls : list (list A)) :
  flat_map (map f) ls = map f (concat ls).
Proof.
  induction ls as [|l ls IH]; simpl; [reflexivity|].
  now rewrite IH, map_app.
Qed.

(** [by_year[y]] holds the records of year [y], in encounter order. *)
Lemma getitem_setdefault_append (d : Dict) (k y : Z) (pub : Publication) :
  getitem (setdefault_append d k pub) y
  = if (k =? y)%Z then getitem d y ++ [pub] else getitem d y.
Proof.
  induction d as [|[k' v] d IH]; simpl.
  - destruct (k =? y)%Z; reflexivity.
  - destruct (k' =? k)%Z eqn:Ek; simpl.
    + apply Z.eqb_eq in Ek; subst k'. destruct (k =? y)%Z; reflexivity.
    + destruct (k' =? y)%Z eqn:Ey; [|exact IH].
      apply Z.eqb_eq in Ey; subst k'.
      rewrite Z.eqb_sym in Ek. now rewrite Ek.
Qed.

Lemma getitem_group_by_year (pubs : list Publication) (y : Z) :
  getitem (group_by_year pubs) y = filter (fun p => (year p =? y)%Z) pubs.
Proof.
  unfold group_by_year.
  enough (H : forall d,
             getitem (fold_left (fun d pub => setdefault_append d (year pub) pub)
                                pubs d) y
             = getitem d y ++ filter (fun p => (year p =? y)%Z) pubs)
    by (apply (H [])).
  induction pubs as [|p pubs IH]; intros d; simpl.
  - now rewrite app_nil_r.
  - rewrite IH, getitem_setdefault_append.
    destruct (year p =? y)%Z; [now rewrite <- app_assoc | reflexivity].
Qed.

(** Cards and headings among the parts the renderer emits. *)
Lemma filter_flat_map {A B} (f : B -> bool) (g : A -> list B) (l : list A) :
  filter f (flat_map g l) = flat_map (fun x => filter f (g x)) l.
Proof.
  induction l as [|x l IH]; simpl; [reflexivity|].
  now rewrite filter_app, IH.
Qed.

Lemma is_card_part_card (pub : Publication) : is_card_part (card pub) = true.
Proof. reflexivity. Qed.

Lemma is_heading_part_card (pub : Publication) :
  is_heading_part (card pub) = false.
Proof. reflexivity. Qed.

Lemma filter_cards_row (group : list Publication) :
  filter is_card_part (row_parts group) = map card group.
Proof.
  unfold row_parts. rewrite !filter_app.
  change (filter is_card_part [lit "  <div class=" ++ q "row" ++ lit ">"])
    with (@nil str).
  change (filter is_card_part [lit "  </div>"; []]) with (@nil str).
  rewrite app_nil_r. cbn [app].
  induction group as [|pub group IH]; [reflexivity|].
  cbn [map filter]. now rewrite is_card_part_card, IH.
Qed.

Lemma filter_headings_row (group : list Publication) :
  filter is_heading_part (row_parts group) = [].
Proof.
  unfold row_parts. rewrite !filter_app.
  change (filter is_heading_part [lit "  <div class=" ++ q "row" ++ lit ">"])
    with (@nil str).
  change (filter is_heading_part [lit "  </div>"; []]) with (@nil str).
  rewrite app_nil_r. cbn [app].
  induction group as [|pub group IH]; [reflexivity|].
  cbn [map filter]. now rewrite is_heading_part_card, IH.
Qed.

Lemma year_parts_eq (by_year : Dict) (y : Z) :
  year_parts by_year y
  = heading_part y :: spacer_part
    :: flat_map row_parts (chunk (getitem by_year y) 3).
Proof. reflexivity. Qed.

Lemma is_card_part_heading (y : Z) : is_card_part (heading_part y) = false.
Proof. reflexivity. Qed.

Lemma is_heading_part_heading (y : Z) :
  is_heading_part (heading_part y) = true.
Proof. reflexivity. Qed.

Lemma filter_cards_year (by_year : Dict) (y : Z) :
  filter is_card_part (year_parts by_year y) = map card (getitem by_year y).
Proof.
  rewrite year_parts_eq. cbn [filter].
  rewrite is_card_part_heading.
  change (is_card_part spacer_part) with false. cbv iota.
  rewrite filter_flat_map.
  rewrite (flat_map_ext _ (map card)) by (intros g; apply filter_cards_row).
  now rewrite flat_map_map_concat, chunk_concat by lia.
Qed.

Lemma filter_headings_year (by_year : Dict) (y : Z) :
  filter is_heading_part (year_parts by_year y) = [heading_part y].
Proof.
  rewrite year_parts_eq. cbn [filter].
  rewrite is_heading_part_heading.
  change (is_heading_part spacer_part) with false. cbv iota.
  f_equal. rewrite filter_flat_map.
  rewrite (flat_map_ext _ (fun _ => [])) by (intros g; apply filter_headings_row).
  induction (chunk (getitem by_year y) 3) as [|g gs IH]; [reflexivity|exact IH].
Qed.

Lemma filter_cards_build (pubs : list Publication) :
  filter is_card_part (build_parts pubs)
  = map card (flat_map (fun y => filter (fun p => (year p =? y)%Z) pubs)
                       (sorted_reverse (keys (group_by_year pubs)))).
Proof.
  unfold build_parts. cbv zeta. rewrite !filter_app.
  change (filter is_card_part [MARKER_START]) with (@nil str).
  change (filter is_card_part [MARKER_END; []]) with (@nil str).
  rewrite app_nil_r. cbn [app]. rewrite filter_flat_map.
  induction (sorted_reverse (keys (group_by_year pubs))) as [|y ys IH];
    [reflexivity|].
  cbn [flat_map]. rewrite map_app, IH, filter_cards_year.
  now rewrite getitem_group_by_year.
Qed.

Lemma filter_headings_build (pubs : list Publication) :
  filter is_heading_part (build_parts pubs)
  = map heading_part (sorted_reverse (keys (group_by_year pubs))).
Proof.
  unfold build_parts. cbv zeta. rewrite !filter_app.
  change (filter is_heading_part [MARKER_START]) with (@nil str).
  change (filter is_heading_part [MARKER_END; []]) with (@nil str).
  rewrite app_nil_r. cbn [app]. rewrite filter_flat_map.
  induction (sorted_reverse (keys (group_by_year pubs))) as [|y ys IH];
    [reflexivity|].
  cbn [flat_map map]. now rewrite IH, filter_headings_year.
Qed.

(** C10.  Chunking by 3 is a lossless partition: the chunks concatenated
    in order give back the list, every chunk but the last has exactly 3
    elements, every chunk has between 1 and 3 and none is empty.  Hence
    the renderer neither drops, duplicates nor reorders the records of a
    year: the parts it emits for a year are the heading, the spacer and
    one row for each chunk of the records of that year, the cards among
    them are the cards of these records, each once and in encounter
    order, and the cards of the whole fragment are those of the years
    one after the other. *)
Theorem chunk_is_lossless_partition
    (items pubs : list Publication) (y : Z) :
  concat (chunk items 3) = items
  /\ Forall (fun c => length c = 3) (removelast (chunk items 3))
  /\ Forall (fun c => 1 <= length c <= 3) (chunk items 3)
  /\ Forall (fun c => c <> []) (chunk items 3)
  /\ flat_map (map card) (chunk (getitem (group_by_year pubs) y) 3)
     = map card (filter (fun p => (year p =? y)%Z) pubs)
  /\ year_parts (group_by_year pubs) y
     = [heading_part y; spacer_part]
       ++ flat_map row_parts
            (chunk (filter (fun p => (year p =? y)%Z) pubs) 3)
  /\ filter is_card_part (year_parts (group_by_year pubs) y)
     = map card (filter (fun p => (year p =? y)%Z) pubs)
  /\ filter is_card_part (build_parts pubs)
     = map card (flat_map (fun y => filter (fun p => (year p =? y)%Z) pubs)
                          (sorted_reverse (keys (group_by_year pubs)))).
Proof.
  assert (H3 : 0 < 3) by lia.
  pose proof (chunk_concat items 3 H3) as Hc.
  pose proof (chunk_bounds items 3 H3) as Hb.
  split; [exact Hc|].
  split; [apply chunk_full; exact H3|].
  split; [exact Hb|].
  split; [eapply Forall_impl; [|exact Hb];
          intros c [Hlo _] ->; simpl in Hlo; lia|].
  split; [now rewrite flat_map_map_concat, chunk_concat, getitem_group_by_year|].
  split; [now rewrite year_parts_eq, getitem_group_by_year|].
  split; [now rewrite filter_cards_year, getitem_group_by_year|].
  apply filter_cards_build.
Qed.

(** ** C6: the shape of the rendered fragment *)

Lemma join_cons (sep x y : str) (rest : list str) :
  Text.join sep (x :: y :: rest) = x ++ sep ++ Text.join sep (y :: rest).
Proof. reflexivity. Qed.

Lemma join_closing (sep a : str) (l : list str) :
  Text.join sep (l ++ [a; []]) = flat_map (fun x => x ++ sep) l ++ a ++ sep.
Proof.
  induction l as [|x l IH].
  - simpl. now rewrite app_nil_r.
  - change ((x :: l) ++ [a; []]) with (x :: (l ++ [a; []])).
    destruct (l ++ [a; []]) as [|y r] eqn:E.
    + destruct l; discriminate.
    + rewrite join_cons, IH. simpl. now rewrite <- !app_assoc.
Qed.

Lemma build_html_shape (pubs : list Publication) :
  build_html pubs = MARKER_START ++ [nl] ++ body pubs ++ MARKER_END ++ [nl].
Proof.
  unfold build_html, build_parts, body.
  set (mid := flat_map _ _).
  change ([MARKER_START] ++ mid ++ [MARKER_END; []])
    with (MARKER_START :: (mid ++ [MARKER_END; []])).
  destruct (mid ++ [MARKER_END; []]) as [|y r] eqn:E.
  - destruct mid; discriminate.
  - now rewrite join_cons, <- E, join_closing.
Qed.

Lemma endswith_app (p s : str) : Text.endswith p (s ++ p) = true.
Proof.
  unfold Text.endswith. rewrite length_app.
  replace (length s + length p - length p) with (length s) by lia.
  rewrite skipn_length_app.
  pose proof (startswith_app p []) as Hp. rewrite app_nil_r in Hp.
  rewrite Hp, andb_true_r. apply Nat.leb_le. lia.
Qed.

Lemma not_endswith_END (s : str) :
  Text.endswith MARKER_END (s ++ MARKER_END ++ [nl]) = false.
Proof.
  unfold Text.endswith. rewrite !length_app.
  replace (length s + (length MARKER_END + length [nl]) - length MARKER_END)
    with (1 + length s) by (simpl; lia).
  rewrite <- skipn_skipn, skipn_length_app.
  apply andb_false_r.
Qed.

(** C6, as the renderer has it.  For every record list, the empty one
    included, the fragment begins with the start marker literal and ends
    with the end marker literal followed by one newline; it never ends
    with the end marker literal itself. *)
Theorem build_html_markers (pubs : list Publication) :
  Text.startswith MARKER_START (build_html pubs) = true
  /\ Text.endswith (MARKER_END ++ [nl]) (build_html pubs) = true
  /\ Text.endswith MARKER_END (build_html pubs) = false
  /\ build_html [] = MARKER_START ++ [nl] ++ MARKER_END ++ [nl].
Proof.
  rewrite build_html_shape. split; [|split; [|split]].
  - apply startswith_app.
  - replace (MARKER_START ++ [nl] ++ body pubs ++ MARKER_END ++ [nl])
      with ((MARKER_START ++ [nl] ++ body pubs) ++ (MARKER_END ++ [nl]))
      by (now rewrite <- !app_assoc).
    apply endswith_app.
  - replace (MARKER_START ++ [nl] ++ body pubs ++ MARKER_END ++ [nl])
      with ((MARKER_START ++ [nl] ++ body pubs) ++ MARKER_END ++ [nl])
      by (now rewrite <- !app_assoc).
    apply not_endswith_END.
  - reflexivity.
Qed.

(** C6 as stated fails on the empty record list: the fragment does not
    end with the end marker literal. *)
Lemma build_html_empty_not_closed_by_END :
  ~ (Text.startswith MARKER_START (build_html []) = true
     /\ Text.endswith MARKER_END (build_html []) = true).
Proof. intros [_ H]. vm_compute in H. discriminate. Qed.

(** ** C2, C9: what the row parser returns *)

Lemma record_of_year (row : Row) (p : Publication) :
  record_of row = Some p -> row_year row = Some (year p).
Proof.
  unfold record_of. destruct (row_year row) as [y|]; [|discriminate].
  destruct (link_tag row); [|discriminate].
  now intros [= <-].
Qed.

(** The loop, row by row, in terms of the row's kind. *)
Lemma parse_rows_loop_cons (row : Row) (rest : list Row)
    (acc : list Publication) :
  unreadable_year row = false ->
  parse_rows_loop (row :: rest) acc
  = if below_cutoff row then Ok acc
    else parse_rows_loop rest
           (acc ++ match record_of row with Some p => [p] | None => [] end).
Proof.
  unfold unreadable_year, below_cutoff, record_of, row_year. simpl.
  destruct (year_span row) as [t|]; [|now rewrite app_nil_r].
  destruct (Py.isdigit (Py.strip t)); simpl; [|now rewrite app_nil_r].
  destruct (Py.int (Py.strip t)) as [y|]; [intros _|discriminate].
  destruct (y <? START_YEAR)%Z; [reflexivity|].
  destruct (link_tag row); [reflexivity|now rewrite app_nil_r].
Qed.

Lemma parse_rows_loop_spec (rows : list Row) (acc : list Publication) :
  Forall (fun row => unreadable_year row = false) (before_cutoff rows) ->
  parse_rows_loop rows acc
  = Ok (acc ++ structural_records (before_cutoff rows)).
Proof.
  revert acc; induction rows as [|row rest IH]; intros acc H.
  - simpl. now rewrite app_nil_r.
  - cbn [before_cutoff] in *.
    destruct (below_cutoff row) eqn:Eb.
    + assert (Hu : unreadable_year row = false).
      { unfold below_cutoff, row_year in Eb. unfold unreadable_year.
        destruct (year_span row) as [t|]; [|reflexivity].
        destruct (Py.isdigit (Py.strip t)); [|reflexivity].
        now destruct (Py.int (Py.strip t)). }
      rewrite (parse_rows_loop_cons _ _ _ Hu), Eb. simpl.
      now rewrite app_nil_r.
    + inversion H as [|? ? Hu Hrest]; subst.
      rewrite (parse_rows_loop_cons _ _ _ Hu), Eb, (IH _ Hrest).
      simpl. now rewrite <- app_assoc.
Qed.

Lemma structural_records_cutoff (rows : list Row) :
  Forall (fun p => (START_YEAR <= year p)%Z)
         (structural_records (before_cutoff rows)).
Proof.
  induction rows as [|row rest IH]; simpl; [constructor|].
  destruct (below_cutoff row) eqn:Eb; simpl; [constructor|].
  apply Forall_app. split; [|exact IH].
  destruct (record_of row) as [p|] eqn:Er; [|constructor].
  constructor; [|constructor].
  apply record_of_year in Er. unfold below_cutoff in Eb. rewrite Er in Eb.
  apply Z.ltb_ge in Eb. exact Eb.
Qed.

(** C2, as the parser has it.  On a page whose year texts are readable,
    [parse_rows] returns, in page order, the records of the structurally
    qualifying rows that precede the first row showing a year below the
    cutoff, and stops there: every returned record has a year of at least
    2018, so the cutoff is applied by the parser itself. *)
Theorem parse_rows_stops_at_cutoff (soup : Soup) :
  Forall (fun row => unreadable_year row = false) (before_cutoff soup) ->
  parse_rows soup = Ok (structural_records (before_cutoff soup))
  /\ Forall (fun p => (START_YEAR <= year p)%Z)
            (structural_records (before_cutoff soup)).
Proof.
  intros H. split.
  - unfold parse_rows. now rewrite (parse_rows_loop_spec soup [] H).
  - apply structural_records_cutoff.
Qed.

Lemma parse_rows_stops_at_cutoff_witness :
  parse_rows (row_of "2019" "A newer paper" :: page_2017)
  = Ok (structural_records
          (before_cutoff (row_of "2019" "A newer paper" :: page_2017)))
  /\ Forall (fun p => (START_YEAR <= year p)%Z)
            (structural_records
               (before_cutoff (row_of "2019" "A newer paper" :: page_2017))).
Proof.
  apply parse_rows_stops_at_cutoff.
  repeat constructor.
Defined.

(** C2 as stated fails: a row of 2017 with a title link qualifies
    structurally and is not returned. *)
Lemma parse_rows_omits_row_below_cutoff :
  structural_records page_2017 <> []
  /\ parse_rows page_2017 = Ok []
  /\ parse_rows page_2017 <> Ok (structural_records page_2017).
Proof.
  split; [|split].
  - vm_compute. discriminate.
  - vm_compute. reflexivity.
  - vm_compute. discriminate.
Qed.

(** Whatever the page, each record returned comes from a row of the page
    that qualifies structurally and does not show a year below the
    cutoff. *)
Lemma parse_rows_loop_origin (rows : list Row) (acc pubs : list Publication) :
  parse_rows_loop rows acc = Ok pubs ->
  exists rs,
    pubs = acc ++ rs
    /\ Forall (fun p => exists row,
                 In row rows /\ record_of row = Some p
                 /\ below_cutoff row = false) rs.
Proof.
  revert acc; induction rows as [|row rest IH]; intros acc H;
    cbn [parse_rows_loop] in H.
  - injection H as <-. exists []. now rewrite app_nil_r.
  - assert (Hweak : forall acc',
              parse_rows_loop rest acc' = Ok pubs ->
              forall front,
                acc' = acc ++ front ->
                Forall (fun p => record_of row = Some p
                                 /\ below_cutoff row = false) front ->
                exists rs,
                  pubs = acc ++ rs
                  /\ Forall (fun p => exists row0,
                               In row0 (row :: rest) /\ record_of row0 = Some p
                               /\ below_cutoff row0 = false) rs).
    { intros acc' H' front -> Hfront.
      destruct (IH _ H') as (rs & -> & Hrs).
      exists (front ++ rs). split; [now rewrite app_assoc|].
      apply Forall_app. split.
      - eapply Forall_impl; [|exact Hfront].
        intros p [? ?]. exists row. repeat split; auto. now left.
      - eapply Forall_impl; [|exact Hrs].
        intros p (row0 & ? & ? & ?). exists row0. repeat split; auto.
        now right. }
    destruct (year_span row) as [t|] eqn:Et;
      [|apply (Hweak _ H []); [now rewrite app_nil_r|constructor]].
    destruct (Py.isdigit (Py.strip t)) eqn:Ed; cbn [negb] in H; cbv iota in H;
      [|apply (Hweak _ H []); [now rewrite app_nil_r|constructor]].
    destruct (Py.int (Py.strip t)) as [y|] eqn:Ei; [|discriminate].
    destruct (y <? START_YEAR)%Z eqn:Ey.
    + injection H as <-. exists []. split; [now rewrite app_nil_r|constructor].
    + destruct (link_tag row) as [tag|] eqn:El;
        [|apply (Hweak _ H []); [now rewrite app_nil_r|constructor]].
      eapply (Hweak _ H); [reflexivity|].
      constructor; [|constructor].
      unfold record_of, below_cutoff, row_year.
      rewrite Et, Ed, Ei, El, Ey. split; reflexivity.
Qed.

Lemma parse_rows_origin (soup : Soup) (pubs : list Publication) :
  parse_rows soup = Ok pubs ->
  Forall (fun p => exists row,
            In row soup /\ record_of row = Some p /\ below_cutoff row = false)
         pubs.
Proof.
  intros H. destruct (parse_rows_loop_origin _ _ _ H) as (rs & -> & Hrs).
  exact Hrs.
Qed.

Lemma parse_rows_years (soup : Soup) (pubs : list Publication) :
  parse_rows soup = Ok pubs ->
  Forall (fun p => (START_YEAR <= year p)%Z) pubs.
Proof.
  intros H. eapply Forall_impl; [|exact (parse_rows_origin _ _ H)].
  intros p (row & _ & Hr & Hb).
  apply record_of_year in Hr. unfold below_cutoff in Hb. rewrite Hr in Hb.
  now apply Z.ltb_ge in Hb.
Qed.

(** [strip] leaves nothing exactly when the text is all whitespace. *)
Lemma forallb_isspace_lstrip (s : str) :
  forallb Py.isspace (Py.lstrip s) = forallb Py.isspace s.
Proof.
  induction s as [|c s IH]; simpl; [reflexivity|].
  destruct (Py.isspace c) eqn:E; simpl; [exact IH | now rewrite E].
Qed.

Lemma lstrip_nil (s : str) :
  Py.lstrip s = [] <-> forallb Py.isspace s = true.
Proof.
  induction s as [|c s IH]; simpl; [tauto|].
  destruct (Py.isspace c); simpl; [exact IH|].
  split; discriminate.
Qed.

Lemma forallb_rev {A} (f : A -> bool) (l : list A) :
  forallb f (rev l) = forallb f l.
Proof.
  induction l as [|x l IH]; simpl; [reflexivity|].
  rewrite forallb_app, IH. simpl. rewrite andb_true_r. apply andb_comm.
Qed.

Lemma strip_nil (s : str) :
  Py.strip s = [] <-> forallb Py.isspace s = true.
Proof.
  unfold Py.strip, Py.rstrip.
  rewrite <- forallb_isspace_lstrip, <- (forallb_rev _ (Py.lstrip s)),
          <- lstrip_nil.
  split; intros H.
  - apply (f_equal (@rev ascii)) in H. now rewrite rev_involutive in H.
  - now rewrite H.
Qed.

(** C9, as the parser has it.  Every record returned by [parse_rows] comes
    from a row of the page that has a title-link element, rows without
    one being dropped; its title is the stripped text of that element,
    which is empty exactly when the text holds nothing but whitespace. *)
Theorem parse_rows_title_from_link (soup : Soup) (pubs : list Publication) :
  parse_rows soup = Ok pubs ->
  Forall (fun p => exists row tag,
            In row soup /\ link_tag row = Some tag
            /\ title p = Py.strip (tag_text tag)
            /\ (title p = [] <-> forallb Py.isspace (tag_text tag) = true))
         pubs.
Proof.
  intros H. eapply Forall_impl; [|exact (parse_rows_origin _ _ H)].
  intros p (row & Hin & Hr & _).
  unfold record_of in Hr.
  destruct (row_year row) as [y|]; [|discriminate].
  destruct (link_tag row) as [tag|] eqn:Et; [|discriminate].
  injection Hr as <-. exists row, tag. simpl.
  repeat split; auto; apply strip_nil.
Qed.

Lemma parse_rows_title_from_link_witness :
  Forall (fun p => exists row tag,
            In row page_blank_title /\ link_tag row = Some tag
            /\ title p = Py.strip (tag_text tag)
            /\ (title p = [] <-> forallb Py.isspace (tag_text tag) = true))
         [mkPublication 2020 [] (scholar_host ++ lit "/citations?p=1")
                        (lit "Some Journal")].
Proof.
  apply (parse_rows_title_from_link page_blank_title). reflexivity.
Defined.

(** C9 as stated fails: a row whose title link holds only blanks yields a
    record with an empty title. *)
Lemma parse_rows_keeps_empty_title :
  exists p, parse_rows page_blank_title = Ok [p] /\ title p = [].
Proof.
  exists (mkPublication 2020 [] (scholar_host ++ lit "/citations?p=1")
                        (lit "Some Journal")).
  split; reflexivity.
Qed.

(** ** C3, C4: the crawl *)

(** One iteration of the loop. *)
Lemma fetch_publications_loop_step (fuel : nat) (cstart : Z)
    (acc : list Publication) (w : World) :
  fetch_publications_loop (S fuel) cstart acc w
  = match listing w cstart with
    | Raise e => Some (Raise e, log (Fetched cstart) w)
    | Ok soup =>
        match parse_rows soup with
        | Raise e => Some (Raise e, log (Fetched cstart) w)
        | Ok [] => Some (Ok acc, log (Fetched cstart) w)
        | Ok (p :: ps) =>
            if (year (last ps p) <? START_YEAR)%Z
            then Some (Ok (acc ++ p :: ps), log (Fetched cstart) w)
            else fetch_publications_loop fuel (cstart + 20)%Z (acc ++ p :: ps)
                   (log (Fetched cstart) w)
        end
    end.
Proof.
  cbn [fetch_publications_loop]. unfold bind, fetch_page, lift.
  destruct (listing w cstart) as [soup|e]; [|reflexivity].
  destruct (parse_rows soup) as [[|p ps]|e]; try reflexivity.
  now destruct (year (last ps p) <? START_YEAR)%Z.
Qed.

(** The check on the last record's year never fires: the parser returns
    no record below the cutoff. *)
Lemma last_year_not_below (soup : Soup) (p : Publication)
    (ps : list Publication) :
  parse_rows soup = Ok (p :: ps) ->
  (year (last ps p) <? START_YEAR)%Z = false.
Proof.
  intros H. apply parse_rows_years in H.
  apply Z.ltb_ge.
  assert (Hin : In (last ps p) (p :: ps)).
  { clear H. induction ps as [|x ps IH]; [now left|].
    destruct ps as [|y ps]; [right; now left|].
    change (last (x :: y :: ps) p) with (last (y :: ps) p).
    destruct IH as [<-|IH]; [now left|right; now right]. }
  rewrite Forall_forall in H. now apply H.
Qed.

Lemma fetch_publications_loop_years (fuel : nat) :
  forall (cstart : Z) (acc : list Publication) (w : World)
         (pubs : list Publication) (w' : World),
    fetch_publications_loop fuel cstart acc w = Some (Ok pubs, w') ->
    Forall (fun p => (START_YEAR <= year p)%Z) acc ->
    Forall (fun p => (START_YEAR <= year p)%Z) pubs.
Proof.
  induction fuel as [|fuel IH]; intros cstart acc w pubs w' H Hacc.
  - discriminate.
  - rewrite fetch_publications_loop_step in H.
    destruct (listing w cstart) as [soup|e]; [|discriminate].
    destruct (parse_rows soup) as [[|p ps]|e] eqn:Ep; [| |discriminate].
    + now injection H as <- _.
    + assert (Hnew : Forall (fun p => (START_YEAR <= year p)%Z)
                            (acc ++ p :: ps))
        by (apply Forall_app; split; [exact Hacc|exact (parse_rows_years _ _ Ep)]).
      destruct (year (last ps p) <? START_YEAR)%Z.
      * now injection H as <- _.
      * exact (IH _ _ _ _ _ H Hnew).
Qed.

(** C4.  Whatever pages the listing returns, every record in the list the
    crawl returns has a year of at least 2018. *)
Theorem fetch_publications_cutoff (fuel : nat) (w w' : World)
    (pubs : list Publication) :
  fetch_publications fuel w = Some (Ok pubs, w') ->
  Forall (fun p => (2018 <= year p)%Z) pubs.
Proof.
  intros H.
  exact (fetch_publications_loop_years fuel _ _ _ _ _ H (Forall_nil _)).
Qed.

Lemma fetch_publications_cutoff_witness :
  Forall (fun p => (2018 <= year p)%Z)
         [pub_of 2022 "First"; pub_of 2019 "Second"; pub_of 2018 "Third"].
Proof.
  apply (fetch_publications_cutoff 5 world3 (add_trace (fetches 4) world3)).
  reflexivity.
Defined.

Lemma page_records_Ok (l : Z -> result Soup) (k : nat)
    (pubs : list Publication) :
  page_records l k = Ok pubs ->
  exists soup, l (20 * Z.of_nat k)%Z = Ok soup /\ parse_rows soup = Ok pubs.
Proof.
  unfold page_records. destruct (l (20 * Z.of_nat k)%Z) as [soup|e];
    [|discriminate].
  intros H. now exists soup.
Qed.

Lemma add_trace_log (e : Event) (es : list Event) (w : World) :
  add_trace es (log e w) = add_trace (e :: es) w.
Proof. unfold add_trace, log. simpl. now rewrite <- app_assoc. Qed.

(** The loop from the [i]-th page on, when the next [m] pages each yield a
    record and the one after them yields none. *)
Lemma fetch_publications_loop_run (l : Z -> result Soup) (m : nat) :
  forall (i fuel : nat) (acc : list Publication) (w : World),
    listing w = l ->
    (forall k, i <= k < i + m -> exists p ps, page_records l k = Ok (p :: ps)) ->
    page_records l (i + m) = Ok [] ->
    m < fuel ->
    fetch_publications_loop fuel (20 * Z.of_nat i)%Z acc w
    = Some (Ok (acc ++ flat_map (records_at l) (seq i m)),
            add_trace (map (fun k => Fetched (20 * Z.of_nat k)%Z) (seq i (S m)))
                      w).
Proof.
  induction m as [|m IH]; intros i fuel acc w Hl Hfull Hend Hfuel;
    (destruct fuel as [|fuel]; [lia|]); rewrite fetch_publications_loop_step, Hl.
  - rewrite Nat.add_0_r in Hend.
    destruct (page_records_Ok _ _ _ Hend) as (soup & -> & ->).
    simpl. now rewrite app_nil_r.
  - destruct (Hfull i ltac:(lia)) as (p & ps & Hp).
    destruct (page_records_Ok _ _ _ Hp) as (soup & Hs & Hr).
    rewrite Hs, Hr, (last_year_not_below _ _ _ Hr).
    replace (20 * Z.of_nat i + 20)%Z with (20 * Z.of_nat (S i))%Z by lia.
    rewrite (IH (S i) fuel); try lia; try assumption.
    + rewrite add_trace_log. cbn [seq flat_map map].
      unfold records_at at 2. rewrite Hp. now rewrite <- app_assoc.
    + intros k Hk. apply Hfull. lia.
    + now replace (S i + m) with (i + S m) by lia.
Qed.

(** What the loop does instead.  It stops at the first page on which
    the parser returns no record, never on the year of a last record,
    which the parser keeps at 2018 or later: when the pages at the first
    [n] offsets each yield a record and the page at the next offset yields
    none, the crawl fetches exactly [n + 1] pages, at offsets 0, 20, ...,
    20n, and returns the records of the first [n] pages in order. *)
Theorem crawl_stops_at_first_empty_page (w : World) (n fuel : nat) :
  (forall k, k < n -> exists p ps, page_records (listing w) k = Ok (p :: ps)) ->
  page_records (listing w) n = Ok [] ->
  n < fuel ->
  (forall soup p ps,
      parse_rows soup = Ok (p :: ps) ->
      (year (last ps p) <? START_YEAR)%Z = false)
  /\ fetch_publications fuel w
     = Some (Ok (flat_map (records_at (listing w)) (seq 0 n)),
             add_trace (fetches (S n)) w).
Proof.
  intros Hfull Hend Hfuel. split; [exact last_year_not_below|].
  unfold fetch_publications, fetches.
  change 0%Z with (20 * Z.of_nat 0)%Z.
  rewrite (fetch_publications_loop_run (listing w) n 0 fuel [] w);
    auto.
  intros k Hk. apply Hfull. lia.
Qed.

(** With last-row years 2022, 2019 and 2017 and a third page that opens
    with a record of 2018, the crawl goes on to a fourth page. *)
Lemma crawl_stops_at_first_empty_page_witness :
  (forall soup p ps,
      parse_rows soup = Ok (p :: ps) ->
      (year (last ps p) <? START_YEAR)%Z = false)
  /\ fetch_publications 5 world3
     = Some (Ok (flat_map (records_at (listing world3)) (seq 0 3)),
             add_trace (fetches 4) world3).
Proof.
  apply (crawl_stops_at_first_empty_page world3 3 5).
  - intros k Hk.
    destruct k as [|[|[|k]]]; [do 2 eexists; reflexivity ..|lia].
  - reflexivity.
  - lia.
Defined.

(** C3 fails on the code.  On a listing whose pages have last-row years
    2022, 2019 and 2017, the third page opening with a record of 2018,
    three iterations do not end the crawl: the parser has cut the third
    page before its row of 2017, the last record kept is of 2018, the
    check of its year does not fire, and the run fetches a fourth page,
    at offset 60, before it stops. *)
Lemma crawl_fetches_fourth_page :
  map (fun cstart => match listing3 cstart with
                     | Ok soup => last_row_year soup
                     | Raise _ => None
                     end) [0; 20; 40]%Z
  = [Some 2022; Some 2019; Some 2017]%Z
  /\ fetch_publications 3 world3 = None
  /\ option_map (fun rw => (fst rw, trace (snd rw)))
                (fetch_publications 4 world3)
     = Some (Ok [pub_of 2022 "First"; pub_of 2019 "Second";
                 pub_of 2018 "Third"],
             [Fetched 0; Fetched 20; Fetched 40; Fetched 60]%Z).
Proof. repeat split. Qed.

(** ** C7, C8: the orchestrator *)

(** The crawl touches nothing but the network. *)
Lemma fetch_publications_loop_world (fuel : nat) :
  forall (cstart : Z) (acc : list Publication) (w : World)
         (r : result (list Publication)) (w1 : World),
    fetch_publications_loop fuel cstart acc w = Some (r, w1) ->
    exists es, w1 = add_trace es w /\ forallb is_fetched es = true.
Proof.
  induction fuel as [|fuel IH]; intros cstart acc w r w1 H; [discriminate|].
  rewrite fetch_publications_loop_step in H.
  assert (Hone : forall r', Some (r', log (Fetched cstart) w) = Some (r, w1) ->
                 exists es, w1 = add_trace es w /\ forallb is_fetched es = true).
  { intros r' [= _ <-]. now exists [Fetched cstart]. }
  destruct (listing w cstart) as [soup|e]; [|exact (Hone _ H)].
  destruct (parse_rows soup) as [[|p ps]|e]; try exact (Hone _ H).
  destruct (year (last ps p) <? START_YEAR)%Z; [exact (Hone _ H)|].
  destruct (IH _ _ _ _ _ H) as (es & -> & Hes).
  exists (Fetched cstart :: es). split; [apply add_trace_log | exact Hes].
Qed.

Lemma fetch_publications_world (fuel : nat) (w w1 : World)
    (r : result (list Publication)) :
  fetch_publications fuel w = Some (r, w1) ->
  exists es, w1 = add_trace es w /\ forallb is_fetched es = true.
Proof. apply fetch_publications_loop_world. Qed.

Lemma inject_html_missing_anchor (doc F : str) :
  Text.contains MARKER_START doc && Text.contains MARKER_END doc = false ->
  Text.contains anchor doc = false ->
  inject_html doc F = Raise (SystemExit missing_anchor_msg).
Proof. intros Hm Ha. unfold inject_html. now rewrite Hm, Ha. Qed.

(** C7.  On a document that holds neither the marker pair nor the anchor
    literal the splice raises [SystemExit] with the message about the
    missing insertion anchor, whatever the fragment; a run that reaches
    the splice ends with that exception after fetching and one read, with
    no write: the document is as it was. *)
Theorem missing_anchor_is_fatal (fuel : nat) (w w1 : World) (doc : str)
    (p : Publication) (ps : list Publication) :
  document w = Some doc ->
  Text.contains MARKER_START doc && Text.contains MARKER_END doc = false ->
  Text.contains anchor doc = false ->
  fetch_publications fuel w = Some (Ok (p :: ps), w1) ->
  (forall F, inject_html doc F = Raise (SystemExit missing_anchor_msg))
  /\ exists es,
       forallb is_fetched es = true
       /\ main fuel w
          = Some (Raise (SystemExit missing_anchor_msg),
                  add_trace (es ++ [ReadText]) w)
       /\ document (add_trace (es ++ [ReadText]) w) = Some doc
       /\ existsb is_write (es ++ [ReadText]) = false.
Proof.
  intros Hdoc Hm Ha Hf.
  split; [intros F; now apply inject_html_missing_anchor|].
  destruct (fetch_publications_world _ _ _ _ Hf) as (es & -> & Hes).
  exists es. split; [exact Hes|]. split; [|split].
  - unfold main, bind. rewrite Hf. unfold read_text.
    cbn [document add_trace]. rewrite Hdoc. unfold lift.
    rewrite (inject_html_missing_anchor _ _ Hm Ha).
    unfold log, add_trace. cbn. now rewrite <- app_assoc.
  - exact Hdoc.
  - rewrite existsb_app. simpl. rewrite orb_false_r.
    clear -Hes. induction es as [|e es IH]; [reflexivity|].
    simpl in *. apply andb_true_iff in Hes as [He Hes].
    rewrite (IH Hes). now destruct e.
Qed.

Lemma missing_anchor_is_fatal_witness :
  (forall F, inject_html bare_html F = Raise (SystemExit missing_anchor_msg))
  /\ exists es,
       forallb is_fetched es = true
       /\ main 5 world_bare
          = Some (Raise (SystemExit missing_anchor_msg),
                  add_trace (es ++ [ReadText]) world_bare)
       /\ document (add_trace (es ++ [ReadText]) world_bare) = Some bare_html
       /\ existsb is_write (es ++ [ReadText]) = false.
Proof.
  apply (missing_anchor_is_fatal 5 world_bare (add_trace (fetches 4) world_bare)
           bare_html (pub_of 2022 "First")
           [pub_of 2019 "Second"; pub_of 2018 "Third"]);
    reflexivity.
Defined.

(** The run of [main] on a crawl without records. *)
Lemma main_no_records (fuel : nat) (w w1 : World) :
  fetch_publications fuel w = Some (Ok [], w1) ->
  exists es,
    forallb is_fetched es = true
    /\ main fuel w
       = Some (Ok 1%Z,
               add_trace (es ++ [Printed (lit "No publications fetched.")]) w)
    /\ existsb is_read (es ++ [Printed (lit "No publications fetched.")]) = false
    /\ existsb is_write (es ++ [Printed (lit "No publications fetched.")]) = false.
Proof.
  intros Hf.
  destruct (fetch_publications_world _ _ _ _ Hf) as (es & -> & Hes).
  exists es. split; [exact Hes|].
  assert (Hnone : forall f, (forall e, is_fetched e = true -> f e = false) ->
                            existsb f es = false).
  { intros f Hfe. clear -Hes Hfe. induction es as [|e es IH]; [reflexivity|].
    simpl in *. apply andb_true_iff in Hes as [He Hes].
    now rewrite (Hfe e He), (IH Hes). }
  split; [|split].
  - unfold main, bind. rewrite Hf. unfold print, ret, log, add_trace. cbn.
    now rewrite <- app_assoc.
  - rewrite existsb_app, Hnone; [reflexivity|]. now intros [].
  - rewrite existsb_app, Hnone; [reflexivity|]. now intros [].
Qed.

(** The run of [main] that reaches the splice on a document with neither
    the marker pair nor the anchor. *)
Lemma main_missing_anchor (fuel : nat) (w w1 : World) (doc : str)
    (p : Publication) (ps : list Publication) :
  document w = Some doc ->
  Text.contains MARKER_START doc && Text.contains MARKER_END doc = false ->
  Text.contains anchor doc = false ->
  fetch_publications fuel w = Some (Ok (p :: ps), w1) ->
  exists es,
    forallb is_fetched es = true
    /\ main fuel w
       = Some (Raise (SystemExit missing_anchor_msg),
               add_trace (es ++ [ReadText]) w).
Proof.
  intros Hdoc Hm Ha Hf.
  destruct (fetch_publications_world _ _ _ _ Hf) as (es & -> & Hes).
  exists es. split; [exact Hes|].
  unfold main, bind. rewrite Hf. unfold read_text.
  cbn [document add_trace]. rewrite Hdoc. unfold lift.
  rewrite (inject_html_missing_anchor _ _ Hm Ha).
  unfold log, add_trace. cbn. now rewrite <- app_assoc.
Qed.

(** C8, as the code has it.  When the crawl yields no record, [main]
    prints its notice and returns 1, a value that is not zero, having
    fetched pages and neither read nor written the document.  The missing
    anchor is not reported by a value of its own: [main] then raises
    [SystemExit] with its message, and run as a program both runs end the
    process with the same status, 1 (120 for both when the standard
    streams cannot be flushed). *)
Theorem no_publications_returns_one (fuel fuel' : nat) (w w1 v v1 : World)
    (doc : str) (p : Publication) (ps : list Publication) (flush_ok : bool) :
  fetch_publications fuel w = Some (Ok [], w1) ->
  document v = Some doc ->
  Text.contains MARKER_START doc && Text.contains MARKER_END doc = false ->
  Text.contains anchor doc = false ->
  fetch_publications fuel' v = Some (Ok (p :: ps), v1) ->
  (exists es,
      forallb is_fetched es = true
      /\ main fuel w
         = Some (Ok 1%Z,
                 add_trace (es ++ [Printed (lit "No publications fetched.")]) w)
      /\ document (add_trace (es ++ [Printed (lit "No publications fetched.")]) w)
         = document w
      /\ existsb is_read (es ++ [Printed (lit "No publications fetched.")])
         = false
      /\ existsb is_write (es ++ [Printed (lit "No publications fetched.")])
         = false
      /\ (1 <> 0)%Z)
  /\ (exists es',
         main fuel' v
         = Some (Raise (SystemExit missing_anchor_msg),
                 add_trace (es' ++ [ReadText]) v))
  /\ (exists w' v',
         script fuel flush_ok w = Some (if flush_ok then 1%Z else 120%Z, w')
         /\ script fuel' flush_ok v
            = Some (if flush_ok then 1%Z else 120%Z, v')).
Proof.
  intros Hf Hdoc Hm Ha Hf'.
  destruct (main_no_records _ _ _ Hf) as (es & Hes & Hmain & Hr & Hw).
  destruct (main_missing_anchor _ _ _ _ _ _ Hdoc Hm Ha Hf')
    as (es' & _ & Hmain').
  split; [|split].
  - exists es. repeat split; try assumption. discriminate.
  - now exists es'.
  - unfold script. rewrite Hmain, Hmain'.
    do 2 eexists. split; destruct flush_ok; reflexivity.
Qed.

Lemma no_publications_returns_one_witness :
  (exists es,
      forallb is_fetched es = true
      /\ main 5 world_empty
         = Some (Ok 1%Z,
                 add_trace (es ++ [Printed (lit "No publications fetched.")])
                           world_empty)
      /\ document (add_trace (es ++ [Printed (lit "No publications fetched.")])
                             world_empty)
         = document world_empty
      /\ existsb is_read (es ++ [Printed (lit "No publications fetched.")])
         = false
      /\ existsb is_write (es ++ [Printed (lit "No publications fetched.")])
         = false
      /\ (1 <> 0)%Z)
  /\ (exists es',
         main 5 world_bare
         = Some (Raise (SystemExit missing_anchor_msg),
                 add_trace (es' ++ [ReadText]) world_bare))
  /\ (exists w' v',
         script 5 true world_empty = Some (1%Z, w')
         /\ script 5 true world_bare = Some (1%Z, v')).
Proof.
  apply (no_publications_returns_one 5 5 world_empty
           (add_trace (fetches 1) world_empty)
           world_bare (add_trace (fetches 4) world_bare)
           bare_html (pub_of 2022 "First")
           [pub_of 2019 "Second"; pub_of 2018 "Third"] true);
    reflexivity.
Defined.

(** C8 as stated fails: the run without records and the run that misses
    the anchor end the process with one and the same status. *)
Lemma no_records_and_missing_anchor_same_status :
  option_map fst (main 5 world_empty) = Some (Ok 1%Z)
  /\ option_map fst (main 5 world_bare)
     = Some (Raise (SystemExit missing_anchor_msg))
  /\ option_map fst (script 5 true world_empty) = Some 1%Z
  /\ option_map fst (script 5 true world_bare) = Some 1%Z
  /\ ~ (option_map fst (script 5 true world_empty)
        <> option_map fst (script 5 true world_bare)).
Proof.
  split; [reflexivity|]. split; [reflexivity|].
  split; [reflexivity|]. split; [reflexivity|].
  intros H. apply H. reflexivity.
Qed.

(** Under [sys.exit(main())] both runs end the process with status 1; they
    differ in what [main] does (returning against raising) and in what is
    printed. *)
Remark exit_status_of_both_failures (flush_ok : bool) :
  exit_status flush_ok (Ok 1%Z)
  = exit_status flush_ok (Raise (SystemExit missing_anchor_msg)).
Proof. reflexivity. Qed.

(** ** C1: splicing the rendered fragment a second time *)

(** *** No comment opens inside the rendered body *)

Lemma safe_tail (c : ascii) (s : str) : safe (c :: s) = true -> safe s = true.
Proof.
  simpl. destruct (is_lt c); [|auto].
  destruct s as [|c2 s]; [discriminate|].
  intros H. now apply andb_true_iff in H as [_ H].
Qed.

Lemma safe_app (a b : str) :
  safe a = true -> safe b = true -> safe (a ++ b) = true.
Proof.
  intros Ha Hb. induction a as [|c a IH]; [exact Hb|].
  pose proof (safe_tail _ _ Ha) as Ht.
  simpl in Ha |- *. destruct (is_lt c); [|auto].
  destruct a as [|c2 a]; [discriminate|].
  apply andb_true_iff in Ha as [Hc2 _].
  simpl. rewrite Hc2. simpl. apply IH. exact Ht.
Qed.

Lemma no_lt_safe (s : str) :
  forallb (fun c => negb (is_lt c)) s = true -> safe s = true.
Proof.
  induction s as [|c s IH]; [reflexivity|]. simpl.
  intros H. apply andb_true_iff in H as [Hc Hs].
  apply negb_true_iff in Hc. rewrite Hc. auto.
Qed.

(** A pattern that opens with [<!] does not occur in a safe text. *)
Lemma safe_no_comment (p s : str) :
  safe s = true ->
  Text.find (lt_char :: ascii_of_nat 33 :: p) s = None.
Proof.
  induction s as [|c s IH]; intros Hs; [reflexivity|].
  rewrite find_cons_miss.
  - now rewrite (IH (safe_tail _ _ Hs)).
  - cbn [Text.startswith].
    destruct (Ascii.eqb lt_char c) eqn:Ec; [|reflexivity].
    apply Ascii.eqb_eq in Ec; subst c.
    destruct s as [|c2 s]; [reflexivity|].
    cbn [Text.startswith andb].
    destruct (Ascii.eqb (ascii_of_nat 33) c2) eqn:E2; [|reflexivity].
    apply Ascii.eqb_eq in E2; subst c2. discriminate.
Qed.

Lemma safe_no_marker (s : str) : safe s = true -> no_marker s.
Proof.
  intros Hs. split; apply contains_false;
    [change MARKER_START with (lt_char :: ascii_of_nat 33 :: tl (tl MARKER_START))
    |change MARKER_END with (lt_char :: ascii_of_nat 33 :: tl (tl MARKER_END))];
    now apply safe_no_comment.
Qed.

Lemma escape_char_no_lt (c : ascii) :
  forallb (fun c => negb (is_lt c)) (Py.escape_char c) = true.
Proof.
  unfold Py.escape_char.
  destruct (nat_of_ascii c =? 38); [reflexivity|].
  destruct (nat_of_ascii c =? 60) eqn:E; [reflexivity|].
  destruct (nat_of_ascii c =? 62); [reflexivity|].
  destruct (nat_of_ascii c =? 34); [reflexivity|].
  destruct (nat_of_ascii c =? 39); [reflexivity|].
  simpl. unfold is_lt. now rewrite E.
Qed.

Lemma escape_safe (s : str) : safe (Py.escape s) = true.
Proof.
  apply no_lt_safe. unfold Py.escape.
  induction s as [|c s IH]; [reflexivity|].
  simpl. now rewrite forallb_app, escape_char_no_lt, IH.
Qed.

Lemma string_of_uint_no_lt (d : Decimal.uint) :
  forallb (fun c => negb (is_lt c)) (lit (NilEmpty.string_of_uint d)) = true.
Proof. induction d; simpl; auto. Qed.

Lemma str_of_int_safe (n : Z) : safe (Py.str_of_int n) = true.
Proof.
  apply no_lt_safe. unfold Py.str_of_int, NilZero.string_of_int.
  destruct (Z.to_int n) as [d|d]; unfold NilZero.string_of_uint.
  - destruct d; try reflexivity; apply string_of_uint_no_lt.
  - change (lit (String "-" ?s)) with ("-"%char :: lit s).
    cbn [forallb]. apply andb_true_iff. split; [reflexivity|].
    destruct d; try reflexivity; apply string_of_uint_no_lt.
Qed.

Ltac safe_pieces :=
  repeat (apply safe_app;
          [first [reflexivity | apply escape_safe | apply str_of_int_safe]|]);
  first [reflexivity | apply escape_safe | apply str_of_int_safe].

Lemma card_safe (pub : Publication) : safe (card pub) = true.
Proof. unfold card. safe_pieces. Qed.

Lemma safe_lines (parts : list str) :
  Forall (fun part => safe part = true) parts ->
  safe (flat_map (fun part => part ++ [nl]) parts) = true.
Proof.
  induction 1 as [|part parts Hp _ IH]; [reflexivity|].
  simpl. rewrite <- app_assoc.
  apply safe_app; [exact Hp|]. apply safe_app; [reflexivity|exact IH].
Qed.

Lemma row_parts_safe (group : list Publication) :
  Forall (fun part => safe part = true) (row_parts group).
Proof.
  unfold row_parts. apply Forall_app. split; [repeat constructor|].
  apply Forall_app. split; [|repeat constructor].
  induction group as [|pub group IH]; simpl; constructor;
    [apply card_safe|exact IH].
Qed.

Lemma year_parts_safe (by_year : Dict) (y : Z) :
  Forall (fun part => safe part = true) (year_parts by_year y).
Proof.
  unfold year_parts. apply Forall_app. split.
  - constructor; [safe_pieces|]. constructor; [reflexivity|constructor].
  - induction (chunk (getitem by_year y) 3) as [|g gs IH]; cbn [flat_map];
      [constructor|].
    apply Forall_app. split; [apply row_parts_safe|exact IH].
Qed.

Lemma body_safe (pubs : list Publication) : safe ([nl] ++ body pubs) = true.
Proof.
  apply safe_app; [reflexivity|]. unfold body. apply safe_lines.
  induction (sorted_reverse (keys (group_by_year pubs))) as [|y ys IH];
    cbn [flat_map]; [constructor|].
  apply Forall_app. split; [apply year_parts_safe|exact IH].
Qed.

(** *** The second splice *)

(** Over a marker pair the rendered fragment replaces the region up to
    the end marker, and the newline that closes the fragment stays
    outside the region: splicing the same fragment again leaves one more
    newline behind it, whatever the records and the surrounding text. *)
Lemma resplice_adds_newline (A old B : str) (pubs : list Publication) :
  Text.contains MARKER_START A = false ->
  Text.contains MARKER_END A = false ->
  Text.contains MARKER_END old = false ->
  inject_html (A ++ MARKER_START ++ old ++ MARKER_END ++ B) (build_html pubs)
  = Ok (A ++ build_html pubs ++ B)
  /\ inject_html (A ++ build_html pubs ++ B) (build_html pubs)
     = Ok (A ++ build_html pubs ++ [nl] ++ B)
  /\ A ++ build_html pubs ++ [nl] ++ B <> A ++ build_html pubs ++ B.
Proof.
  intros HA1 HA2 Ho. split; [|split].
  - now apply inject_html_over_markers.
  - rewrite build_html_shape at 1.
    replace (A ++ (MARKER_START ++ [nl] ++ body pubs ++ MARKER_END ++ [nl]) ++ B)
      with (A ++ MARKER_START ++ ([nl] ++ body pubs) ++ MARKER_END ++ [nl] ++ B)
      by (now rewrite <- !app_assoc).
    apply inject_html_over_markers; auto.
    apply (safe_no_marker _ (body_safe pubs)).
  - intros H. apply (f_equal (@length ascii)) in H.
    rewrite !length_app in H. simpl in H. lia.
Qed.

(** C1 fails on the code.  Splicing the fragment rendered for one record
    into a document that has the marker pair, and splicing the same
    fragment into the result, gives two different documents: the second
    has one more newline after the end marker. *)
Theorem resplice_is_not_idempotent :
  inject_html index_html (build_html pubs1)
  = Ok (lit "<html>" ++ [nl] ++ build_html pubs1 ++ [nl] ++ lit "</html>" ++ [nl])
  /\ inject_html
       (lit "<html>" ++ [nl] ++ build_html pubs1 ++ [nl] ++ lit "</html>" ++ [nl])
       (build_html pubs1)
     = Ok (lit "<html>" ++ [nl] ++ build_html pubs1 ++ [nl] ++ [nl]
           ++ lit "</html>" ++ [nl])
  /\ inject_html
       (lit "<html>" ++ [nl] ++ build_html pubs1 ++ [nl] ++ lit "</html>" ++ [nl])
       (build_html pubs1)
     <> inject_html index_html (build_html pubs1).
Proof.
  split; [|split].
  - vm_compute. reflexivity.
  - vm_compute. reflexivity.
  - vm_compute. discriminate.
Qed.

(** The same on the insertion path: a first run inserts the fragment
    before the anchor, a second run finds the markers and leaves a second
    newline. *)
Lemma resplice_after_insertion :
  inject_html (lit "<body>" ++ [nl] ++ anchor ++ [nl]) (build_html [])
  = Ok (lit "<body>" ++ [nl] ++ build_html [] ++ [nl] ++ anchor ++ [nl])
  /\ inject_html
       (lit "<body>" ++ [nl] ++ build_html [] ++ [nl] ++ anchor ++ [nl])
       (build_html [])
     = Ok (lit "<body>" ++ [nl] ++ build_html [] ++ [nl] ++ [nl] ++ anchor
           ++ [nl]).
Proof. split; vm_compute; reflexivity. Qed.

(** * Further properties of the code *)

(** ** Searching, in general position *)

Lemma find_unfold (p s : str) :
  Text.find p s
  = if Text.startswith p s then Some 0
    else match s with
         | [] => None
         | _ :: s' => option_map S (Text.find p s')
         end.
Proof.
  unfold Text.find at 1. destruct s as [|b s]; simpl.
  - reflexivity.
  - destruct (Text.startswith p (b :: s)); [reflexivity|].
    now rewrite find_from_shift.
Qed.

Lemma find_Some_spec (p s : str) (n : nat) :
  Text.find p s = Some n ->
  Text.startswith p (skipn n s) = true
  /\ n <= length s
  /\ forall k, k < n -> Text.startswith p (skipn k s) = false.
Proof.
  revert n; induction s as [|b s IH]; intros n H; rewrite find_unfold in H.
  - destruct (Text.startswith p []) eqn:E; [|discriminate].
    injection H as <-. repeat split; auto. intros k Hk; lia.
  - destruct (Text.startswith p (b :: s)) eqn:E.
    + injection H as <-. repeat split; auto; [simpl; lia|]. intros k Hk; lia.
    + destruct (Text.find p s) as [m|]; [|discriminate].
      injection H as <-. destruct (IH m eq_refl) as (H1 & H2 & H3).
      repeat split; [exact H1|simpl; lia|].
      intros [|k] Hk; [exact E|]. apply H3. lia.
Qed.

Lemma find_None_spec (p s : str) :
  Text.find p s = None -> forall k, Text.startswith p (skipn k s) = false.
Proof.
  induction s as [|b s IH]; intros H k; rewrite find_unfold in H.
  - destruct (Text.startswith p []) eqn:E; [discriminate|].
    now destruct k.
  - destruct (Text.startswith p (b :: s)) eqn:E; [discriminate|].
    destruct (Text.find p s); [discriminate|].
    destruct k; [exact E|]. now apply IH.
Qed.

(** A text that holds [p] somewhere is found to contain it. *)
Lemma contains_app (p a b : str) : Text.contains p (a ++ p ++ b) = true.
Proof.
  unfold Text.contains.
  destruct (Text.find p (a ++ p ++ b)) eqn:E; [reflexivity|].
  pose proof (find_None_spec _ _ E (length a)) as H.
  now rewrite skipn_length_app, startswith_app in H.
Qed.

(** ** inject_html: failure, insertion, markers out of order *)

(** X1.  The splice fails exactly when the document lacks the marker pair
    and the anchor, and then with the [SystemExit] about the anchor: the
    guarded [index] calls never raise. *)
Theorem inject_html_fails_iff (existing new_block : str) (e : exn) :
  inject_html existing new_block = Raise e
  <-> e = SystemExit missing_anchor_msg
      /\ Text.contains MARKER_START existing && Text.contains MARKER_END existing
         = false
      /\ Text.contains anchor existing = false.
Proof.
  unfold inject_html, index, Text.contains.
  destruct (Text.find MARKER_START existing);
    destruct (Text.find MARKER_END existing);
    destruct (Text.find anchor existing); simpl;
    (split; [intros H; try discriminate; injection H as <-; auto
            |intros (-> & H1 & H2); try discriminate; reflexivity]).
Qed.

(** X2.  Without the marker pair and with the anchor first found at
    [idx], the splice inserts the fragment and one newline right before
    that occurrence: the text before and the text from the anchor on are
    kept as they are, and no occurrence of the anchor precedes the
    insertion point. *)
Theorem inject_html_inserts_before_anchor (existing new_block : str) (idx : nat) :
  Text.contains MARKER_START existing && Text.contains MARKER_END existing
  = false ->
  Text.find anchor existing = Some idx ->
  inject_html existing new_block
  = Ok (firstn idx existing ++ new_block ++ [nl] ++ skipn idx existing)
  /\ firstn idx existing ++ skipn idx existing = existing
  /\ (exists rest, skipn idx existing = anchor ++ rest)
  /\ forall k, k < idx -> Text.startswith anchor (skipn k existing) = false.
Proof.
  intros Hm Hf.
  destruct (find_Some_spec _ _ _ Hf) as (H1 & _ & H3).
  split; [|split; [apply firstn_skipn|split; [now apply startswith_inv|exact H3]]].
  unfold inject_html. rewrite Hm, (contains_true _ _ _ Hf).
  unfold index. now rewrite Hf.
Qed.

Lemma inject_html_inserts_before_anchor_witness :
  inject_html (lit "<body>" ++ anchor) (lit "F")
  = Ok (firstn 6 (lit "<body>" ++ anchor) ++ lit "F" ++ [nl]
        ++ skipn 6 (lit "<body>" ++ anchor))
  /\ firstn 6 (lit "<body>" ++ anchor) ++ skipn 6 (lit "<body>" ++ anchor)
     = lit "<body>" ++ anchor
  /\ (exists rest, skipn 6 (lit "<body>" ++ anchor) = anchor ++ rest)
  /\ forall k, k < 6 ->
       Text.startswith anchor (skipn k (lit "<body>" ++ anchor)) = false.
Proof.
  apply (inject_html_inserts_before_anchor (lit "<body>" ++ anchor) (lit "F") 6);
    reflexivity.
Defined.

Lemma START_not_at_END (t : str) :
  Text.startswith MARKER_START (MARKER_END ++ t) = false.
Proof. reflexivity. Qed.

Lemma find_START_after_END (A mid rest : str) :
  Text.contains MARKER_START A = false ->
  Text.contains MARKER_START mid = false ->
  Text.find MARKER_START (A ++ MARKER_END ++ mid ++ MARKER_START ++ rest)
  = Some (length A + length MARKER_END + length mid).
Proof.
  intros HA Hmid.
  apply contains_false in HA. apply contains_false in Hmid.
  pose proof (find_after lt_char (tl MARKER_START) MARKER_START_tail) as Hafter.
  pose proof (find_skip lt_char (tl MARKER_START)) as Hskip.
  pose proof (find_after_here lt_char (tl MARKER_START) MARKER_START_tail)
    as Hhere.
  rewrite <- MARKER_START_head in Hafter, Hskip, Hhere.
  set (X := mid ++ MARKER_START ++ rest).
  assert (HX : Text.find MARKER_START X = Some (length mid))
    by (apply Hhere; exact Hmid).
  assert (HE : Text.find MARKER_START (MARKER_END ++ X)
               = Some (length MARKER_END + length mid)).
  { rewrite MARKER_END_head at 1.
    change ((lt_char :: tl MARKER_END) ++ X)
      with (lt_char :: (tl MARKER_END ++ X)).
    rewrite find_cons_miss
      by (change (lt_char :: tl MARKER_END ++ X) with (MARKER_END ++ X);
          apply START_not_at_END).
    rewrite (Hskip _ _ MARKER_END_tail), HX. reflexivity. }
  rewrite MARKER_END_head at 1.
  change ((lt_char :: tl MARKER_END) ++ X)
    with (lt_char :: (tl MARKER_END ++ X)).
  rewrite (Hafter A _ HA).
  change (lt_char :: tl MARKER_END ++ X) with (MARKER_END ++ X).
  rewrite HE. simpl. f_equal. lia.
Qed.

(** X3.  When the first end marker stands before the first start marker,
    the splice removes nothing: it keeps the text up to the start marker,
    puts the fragment there, and continues with the text from right
    after the end marker, so that the text between the two markers and
    the start marker itself appear a second time. *)
Theorem inject_html_markers_out_of_order (A mid B F : str) :
  no_marker A ->
  Text.contains MARKER_START mid = false ->
  inject_html (A ++ MARKER_END ++ mid ++ MARKER_START ++ B) F
  = Ok (A ++ MARKER_END ++ mid ++ F ++ mid ++ MARKER_START ++ B).
Proof.
  intros [HA1 HA2] Hmid.
  pose proof (find_START_after_END A mid B HA1 Hmid) as Hs.
  assert (He : Text.find MARKER_END
                 (A ++ MARKER_END ++ mid ++ MARKER_START ++ B)
               = Some (length A)).
  { rewrite MARKER_END_head.
    apply (find_after_here lt_char (tl MARKER_END) MARKER_END_tail).
    rewrite <- MARKER_END_head. now apply contains_false. }
  unfold inject_html, index.
  rewrite (contains_true _ _ _ Hs), (contains_true _ _ _ He), Hs, He.
  simpl andb. cbv iota. unfold bind_result. f_equal.
  replace (A ++ MARKER_END ++ mid ++ F ++ mid ++ MARKER_START ++ B)
    with ((A ++ MARKER_END ++ mid) ++ F ++ mid ++ MARKER_START ++ B)
    by (now rewrite <- !app_assoc).
  f_equal; [|f_equal].
  - replace (A ++ MARKER_END ++ mid ++ MARKER_START ++ B)
      with ((A ++ MARKER_END ++ mid) ++ MARKER_START ++ B)
      by (now rewrite <- !app_assoc).
    replace (length A + length MARKER_END + length mid)
      with (length (A ++ MARKER_END ++ mid)) by (rewrite !length_app; lia).
    apply firstn_length_app.
  - replace (A ++ MARKER_END ++ mid ++ MARKER_START ++ B)
      with ((A ++ MARKER_END) ++ mid ++ MARKER_START ++ B)
      by (now rewrite <- !app_assoc).
    replace (length A + length MARKER_END)
      with (length (A ++ MARKER_END)) by (rewrite !length_app; lia).
    apply skipn_length_app.
Qed.

Lemma inject_html_markers_out_of_order_witness :
  inject_html (lit "a" ++ MARKER_END ++ lit "m" ++ MARKER_START ++ lit "b")
              (lit "F")
  = Ok (lit "a" ++ MARKER_END ++ lit "m" ++ lit "F" ++ lit "m"
        ++ MARKER_START ++ lit "b").
Proof.
  apply inject_html_markers_out_of_order; [split|]; reflexivity.
Defined.

(** ** build_html: where the markers are *)

(** X4.  Whatever the records hold, titles that spell a marker included,
    the rendered fragment has the start marker only at its beginning and
    the end marker only at its end, before the closing newline: the text
    between them contains neither literal. *)
Theorem build_html_markers_only_at_ends (pubs : list Publication) :
  exists mid,
    build_html pubs = MARKER_START ++ mid ++ MARKER_END ++ [nl]
    /\ no_marker mid
    /\ Text.find MARKER_START (build_html pubs) = Some 0
    /\ Text.find MARKER_END (build_html pubs)
       = Some (length (build_html pubs) - length MARKER_END - 1).
Proof.
  exists ([nl] ++ body pubs).
  pose proof (safe_no_marker _ (body_safe pubs)) as [Hs He].
  split; [|split; [now split|split]].
  - rewrite build_html_shape. now rewrite <- !app_assoc.
  - rewrite build_html_shape. apply find_here.
  - rewrite build_html_shape.
    pose proof (find_END_in_doc [] ([nl] ++ body pubs) [nl] eq_refl He) as H.
    cbn [app] in H. cbn [app]. rewrite H.
    f_equal. rewrite length_app. cbn [length]. rewrite !length_app.
    cbn [length]. lia.
Qed.

(** X5.  A splice of a rendered fragment that succeeds, by replacement or
    by insertion, returns a document in which both markers occur: a later
    run replaces and does not insert again. *)
Theorem inject_html_leaves_marker_pair (existing updated : str)
    (pubs : list Publication) :
  inject_html existing (build_html pubs) = Ok updated ->
  Text.contains MARKER_START updated && Text.contains MARKER_END updated = true.
Proof.
  intros H.
  assert (Hshape : exists X Y, updated = X ++ build_html pubs ++ Y).
  { unfold inject_html, index, bind_result in H.
    destruct (Text.contains MARKER_START existing
              && Text.contains MARKER_END existing).
    - destruct (Text.find MARKER_START existing) as [s|]; [|discriminate].
      destruct (Text.find MARKER_END existing) as [e|]; [|discriminate].
      injection H as <-. eauto.
    - destruct (negb (Text.contains anchor existing)); [discriminate|].
      destruct (Text.find anchor existing) as [i|]; [|discriminate].
      injection H as <-. eauto. }
  destruct Hshape as (X & Y & ->). rewrite build_html_shape.
  apply andb_true_iff. split.
  - rewrite <- !app_assoc. apply contains_app.
  - replace (X ++ (MARKER_START ++ [nl] ++ body pubs ++ MARKER_END ++ [nl]) ++ Y)
      with ((X ++ MARKER_START ++ [nl] ++ body pubs) ++ MARKER_END ++ [nl] ++ Y)
      by (now rewrite <- !app_assoc).
    apply contains_app.
Qed.

Lemma inject_html_leaves_marker_pair_witness :
  Text.contains MARKER_START
    (lit "<body>" ++ build_html pubs1 ++ [nl] ++ anchor)
  && Text.contains MARKER_END
       (lit "<body>" ++ build_html pubs1 ++ [nl] ++ anchor)
  = true.
Proof.
  apply (inject_html_leaves_marker_pair (lit "<body>" ++ anchor) _ pubs1).
  vm_compute. reflexivity.
Defined.

(** ** parse_rows: the exception, and the fields of a record *)

Lemma unreadable_not_below (row : Row) :
  unreadable_year row = true -> below_cutoff row = false.
Proof.
  unfold unreadable_year, below_cutoff, row_year.
  destruct (year_span row) as [t|]; [|discriminate].
  destruct (Py.isdigit (Py.strip t)); [|discriminate].
  now destruct (Py.int (Py.strip t)).
Qed.

Lemma parse_rows_loop_unreadable (row : Row) (rest : list Row)
    (acc : list Publication) :
  unreadable_year row = true ->
  parse_rows_loop (row :: rest) acc = Raise ValueError.
Proof.
  unfold unreadable_year. cbn [parse_rows_loop].
  destruct (year_span row) as [t|]; [|discriminate].
  destruct (Py.isdigit (Py.strip t)); [|discriminate].
  now destruct (Py.int (Py.strip t)).
Qed.

Lemma parse_rows_loop_raises (rows : list Row) (acc : list Publication)
    (e : exn) :
  parse_rows_loop rows acc = Raise e
  <-> e = ValueError /\ existsb unreadable_year (before_cutoff rows) = true.
Proof.
  revert acc; induction rows as [|row rest IH]; intros acc.
  - simpl. split; [discriminate|now intros [_ H]].
  - destruct (unreadable_year row) eqn:Eu.
    + rewrite (parse_rows_loop_unreadable _ _ _ Eu).
      cbn [before_cutoff]. rewrite (unreadable_not_below _ Eu).
      cbn [existsb]. rewrite Eu. simpl.
      split; [now intros [= <-]|now intros [-> _]].
    + rewrite (parse_rows_loop_cons _ _ _ Eu). cbn [before_cutoff].
      destruct (below_cutoff row).
      * simpl. split; [discriminate|now intros [_ H]].
      * cbn [existsb]. rewrite Eu. simpl. apply IH.
Qed.

(** What [int] rejects of the texts that pass [isdigit]: a digit that is
    not decimal, and a text longer than the interpreter's limit. *)
Lemma int_rejects (s : str) :
  Py.int s = None
  <-> forallb Py.isdecimal_char s = false \/ Py.int_max_str_digits < length s.
Proof.
  unfold Py.int.
  destruct (Nat.leb_spec (length s) Py.int_max_str_digits) as [Hle|Hgt];
    destruct (forallb Py.isdecimal_char s); simpl;
    (split; [intros H; try discriminate; auto
            |intros [H|H]; try discriminate; try reflexivity; lia]).
Qed.

Lemma int_rejects_long_text :
  Py.isdigit (repeat (ascii_of_nat 49) 4301) = true
  /\ Py.int (repeat (ascii_of_nat 49) 4301) = None
  /\ Py.isdigit [ascii_of_nat 178] = true
  /\ Py.int [ascii_of_nat 178] = None.
Proof. repeat split; vm_compute; reflexivity. Qed.

(** The years that [int] reads have no more digits than the text. *)
Lemma int_fold_bound (s : str) :
  forall acc : Z,
    (0 <= acc)%Z ->
    forallb Py.isdecimal_char s = true ->
    (acc * 10 ^ Z.of_nat (length s)
     <= fold_left (fun a c => 10 * a + Py.digit_value c) s acc
     < (acc + 1) * 10 ^ Z.of_nat (length s))%Z.
Proof.
  induction s as [|c s IH]; intros acc Hacc Hs.
  - simpl. lia.
  - cbn [forallb] in Hs. apply andb_true_iff in Hs as [Hc Hs].
    assert (Hd : (0 <= Py.digit_value c <= 9)%Z).
    { unfold Py.isdecimal_char in Hc. unfold Py.digit_value.
      apply andb_true_iff in Hc as [H1 H2].
      apply Nat.leb_le in H1. apply Nat.leb_le in H2. lia. }
    cbn [fold_left length].
    specialize (IH (10 * acc + Py.digit_value c)%Z ltac:(lia) Hs).
    rewrite Nat2Z.inj_succ, Z.pow_succ_r by lia.
    assert (Hp : (0 < 10 ^ Z.of_nat (length s))%Z)
      by (apply Z.pow_pos_nonneg; lia).
    nia.
Qed.

Lemma int_bound (s : str) (n : Z) :
  Py.int s = Some n ->
  (0 <= n < 10 ^ Z.of_nat Py.int_max_str_digits)%Z.
Proof.
  unfold Py.int.
  destruct (Nat.leb_spec (length s) Py.int_max_str_digits) as [Hle|_];
    [|discriminate].
  destruct (forallb Py.isdecimal_char s) eqn:Hs; [|discriminate].
  cbn [andb]. intros [= <-].
  pose proof (int_fold_bound s 0 ltac:(lia) Hs) as [H1 H2].
  rewrite Z.mul_0_l in H1. change (0 + 1)%Z with 1%Z in H2.
  rewrite Z.mul_1_l in H2.
  split; [exact H1|].
  eapply Z.lt_le_trans; [exact H2|].
  apply Z.pow_le_mono_r; lia.
Qed.

(** The years of the records the parser returns are within what [str]
    converts. *)
Lemma parse_rows_year_bound (soup : Soup) (pubs : list Publication) :
  parse_rows soup = Ok pubs ->
  Forall (fun p => (0 <= year p < 10 ^ Z.of_nat Py.int_max_str_digits)%Z) pubs.
Proof.
  intros H. eapply Forall_impl; [|exact (parse_rows_origin _ _ H)].
  intros p (row & _ & Hr & _). apply record_of_year in Hr.
  unfold row_year in Hr.
  destruct (year_span row) as [t|]; [|discriminate].
  destruct (Py.isdigit (Py.strip t)); [|discriminate].
  exact (int_bound _ _ Hr).
Qed.

(** X6.  The parser raises exactly when, before the first row showing a
    year below the cutoff, a row shows a year text that [isdigit] accepts
    and [int] rejects (a superscript digit, or more digits than the
    interpreter's limit of 4300), and what it raises is [ValueError]; no
    other row makes it fail. *)
Theorem parse_rows_raises_iff (soup : Soup) (e : exn) :
  parse_rows soup = Raise e
  <-> e = ValueError /\ existsb unreadable_year (before_cutoff soup) = true.
Proof. apply parse_rows_loop_raises. Qed.

(** What [strip] leaves has no whitespace at either end. *)
Lemma lstrip_fixed (c : ascii) (t : str) :
  Py.isspace c = false -> Py.lstrip (c :: t) = c :: t.
Proof. intros H. simpl. now rewrite H. Qed.

Lemma lstrip_head (s : str) (c : ascii) (t : str) :
  Py.lstrip s = c :: t -> Py.isspace c = false.
Proof.
  induction s as [|x s IH]; simpl; [discriminate|].
  destruct (Py.isspace x) eqn:E; [exact IH|].
  now intros [= <- _].
Qed.

Lemma lstrip_keeps_last (x : str) (c : ascii) :
  Py.isspace c = false -> exists u, Py.lstrip (x ++ [c]) = u ++ [c].
Proof.
  intros Hc. induction x as [|a x IH]; simpl.
  - rewrite Hc. now exists [].
  - destruct (Py.isspace a); [exact IH|]. now exists (a :: x).
Qed.

Lemma lstrip_idem (s : str) : Py.lstrip (Py.lstrip s) = Py.lstrip s.
Proof.
  destruct (Py.lstrip s) as [|c t] eqn:E; [reflexivity|].
  apply lstrip_fixed. exact (lstrip_head _ _ _ E).
Qed.

Lemma rstrip_head (c : ascii) (t : str) :
  Py.isspace c = false -> exists v, Py.rstrip (c :: t) = c :: v.
Proof.
  intros Hc. unfold Py.rstrip. simpl.
  destruct (lstrip_keeps_last (rev t) c Hc) as [u ->].
  rewrite rev_app_distr. simpl. now exists (rev u).
Qed.

Lemma strip_idem (s : str) : Py.strip (Py.strip s) = Py.strip s.
Proof.
  unfold Py.strip.
  destruct (Py.lstrip s) as [|c t] eqn:E; [reflexivity|].
  pose proof (lstrip_head _ _ _ E) as Hc.
  destruct (rstrip_head c t Hc) as [v Hv].
  rewrite Hv, (lstrip_fixed _ _ Hc), <- Hv.
  unfold Py.rstrip. now rewrite rev_involutive, lstrip_idem.
Qed.

(** X7.  Every record returned by the parser has a link that begins with
    the host of the listing, and a title and a venue without whitespace
    at either end: stripping them again changes nothing. *)
Theorem parse_rows_record_fields (soup : Soup) (pubs : list Publication) :
  parse_rows soup = Ok pubs ->
  Forall (fun p => Text.startswith scholar_host (link p) = true
                   /\ Py.strip (title p) = title p
                   /\ Py.strip (venue p) = venue p) pubs.
Proof.
  intros H. eapply Forall_impl; [|exact (parse_rows_origin _ _ H)].
  intros p (row & _ & Hr & _). unfold record_of in Hr.
  destruct (row_year row); [|discriminate].
  destruct (link_tag row) as [tag|]; [|discriminate].
  injection Hr as <-. cbn [link title venue].
  split; [exact (startswith_app scholar_host (get_href tag))|].
  split; [apply strip_idem|].
  unfold venue_of. destruct (detail_lines row) as [|a [|b l]];
    try reflexivity. apply strip_idem.
Qed.

Lemma parse_rows_record_fields_witness :
  Forall (fun p => Text.startswith scholar_host (link p) = true
                   /\ Py.strip (title p) = title p
                   /\ Py.strip (venue p) = venue p)
         [mkPublication 2020 [] (scholar_host ++ lit "/citations?p=1")
                        (lit "Some Journal")].
Proof.
  apply (parse_rows_record_fields page_blank_title). reflexivity.
Defined.

(** ** fetch_publications: exceptions, endless listings, the order of requests *)

Lemma page_records_Raise (l : Z -> result Soup) (k : nat) (e : exn) :
  page_records l k = Raise e ->
  l (20 * Z.of_nat k)%Z = Raise e
  \/ exists soup, l (20 * Z.of_nat k)%Z = Ok soup /\ parse_rows soup = Raise e.
Proof.
  unfold page_records. destruct (l (20 * Z.of_nat k)%Z) as [soup|e'].
  - intros H. right. now exists soup.
  - intros [= <-]. now left.
Qed.

Lemma fetch_publications_loop_abort (l : Z -> result Soup) (e : exn) (m : nat) :
  forall (i fuel : nat) (acc : list Publication) (w : World),
    listing w = l ->
    (forall k, i <= k < i + m -> exists p ps, page_records l k = Ok (p :: ps)) ->
    page_records l (i + m) = Raise e ->
    m < fuel ->
    fetch_publications_loop fuel (20 * Z.of_nat i)%Z acc w
    = Some (Raise e, add_trace (fetches_from i (S m)) w).
Proof.
  induction m as [|m IH]; intros i fuel acc w Hl Hfull Hend Hfuel;
    (destruct fuel as [|fuel]; [lia|]); rewrite fetch_publications_loop_step, Hl.
  - rewrite Nat.add_0_r in Hend.
    destruct (page_records_Raise _ _ _ Hend) as [->|(soup & -> & ->)];
      reflexivity.
  - destruct (Hfull i ltac:(lia)) as (p & ps & Hp).
    destruct (page_records_Ok _ _ _ Hp) as (soup & Hs & Hr).
    rewrite Hs, Hr, (last_year_not_below _ _ _ Hr).
    replace (20 * Z.of_nat i + 20)%Z with (20 * Z.of_nat (S i))%Z by lia.
    rewrite (IH (S i) fuel); try lia; try assumption.
    + now rewrite add_trace_log.
    + intros k Hk. apply Hfull. lia.
    + now replace (S i + m) with (i + S m) by lia.
Qed.

(** X8.  An exception on a page ends the crawl at once and the records
    gathered so far are lost: when the first [n] pages each yield a
    record and the next request fails, or its page cannot be parsed, the
    crawl ends with that exception after exactly [n + 1] requests. *)
Theorem fetch_publications_aborts (w : World) (n fuel : nat) (e : exn) :
  (forall k, k < n -> exists p ps, page_records (listing w) k = Ok (p :: ps)) ->
  page_records (listing w) n = Raise e ->
  n < fuel ->
  fetch_publications fuel w = Some (Raise e, add_trace (fetches (S n)) w).
Proof.
  intros Hfull Hend Hfuel. unfold fetch_publications.
  change 0%Z with (20 * Z.of_nat 0)%Z.
  apply (fetch_publications_loop_abort (listing w) e n 0 fuel [] w); auto.
  intros k Hk. apply Hfull. lia.
Qed.

Lemma fetch_publications_aborts_witness :
  fetch_publications 3 world_broken
  = Some (Raise HTTPError, add_trace (fetches 2) world_broken).
Proof.
  apply (fetch_publications_aborts world_broken 1 3 HTTPError).
  - intros k Hk. destruct k as [|k]; [do 2 eexists; reflexivity|lia].
  - reflexivity.
  - lia.
Defined.

Lemma fetch_publications_loop_endless (l : Z -> result Soup) (fuel : nat) :
  forall (i : nat) (acc : list Publication) (w : World),
    listing w = l ->
    (forall k, exists p ps, page_records l k = Ok (p :: ps)) ->
    fetch_publications_loop fuel (20 * Z.of_nat i)%Z acc w = None.
Proof.
  induction fuel as [|fuel IH]; intros i acc w Hl Hall; [reflexivity|].
  rewrite fetch_publications_loop_step, Hl.
  destruct (Hall i) as (p & ps & Hp).
  destruct (page_records_Ok _ _ _ Hp) as (soup & Hs & Hr).
  rewrite Hs, Hr, (last_year_not_below _ _ _ Hr).
  replace (20 * Z.of_nat i + 20)%Z with (20 * Z.of_nat (S i))%Z by lia.
  now apply IH.
Qed.

(** X9.  Nothing but a page without records or an exception ends the
    crawl: on a listing every page of which yields a record the loop is
    still running after any number of iterations. *)
Theorem fetch_publications_endless (w : World) (fuel : nat) :
  (forall k, exists p ps, page_records (listing w) k = Ok (p :: ps)) ->
  fetch_publications fuel w = None.
Proof.
  intros Hall. unfold fetch_publications.
  change 0%Z with (20 * Z.of_nat 0)%Z.
  now apply (fetch_publications_loop_endless (listing w)).
Qed.

Lemma fetch_publications_endless_witness :
  fetch_publications 50
    (mkWorld listing_endless None (lit "index.html") []) = None.
Proof.
  apply fetch_publications_endless.
  intros k. do 2 eexists. reflexivity.
Defined.

Lemma fetches_from_cons (i n : nat) :
  fetches_from i (S n) = Fetched (20 * Z.of_nat i)%Z :: fetches_from (S i) n.
Proof. reflexivity. Qed.

Lemma fetch_publications_loop_requests (fuel : nat) :
  forall (i : nat) (acc : list Publication) (w : World)
         (r : result (list Publication)) (w1 : World),
    fetch_publications_loop fuel (20 * Z.of_nat i)%Z acc w = Some (r, w1) ->
    exists k, 1 <= k <= fuel /\ w1 = add_trace (fetches_from i k) w.
Proof.
  induction fuel as [|fuel IH]; intros i acc w r w1 H; [discriminate|].
  rewrite fetch_publications_loop_step in H.
  assert (Hone : forall r', Some (r', log (Fetched (20 * Z.of_nat i)%Z) w)
                            = Some (r, w1) ->
                 exists k, 1 <= k <= S fuel
                           /\ w1 = add_trace (fetches_from i k) w).
  { intros r' [= _ <-]. exists 1. split; [lia|reflexivity]. }
  destruct (listing w (20 * Z.of_nat i)%Z) as [soup|e]; [|exact (Hone _ H)].
  destruct (parse_rows soup) as [[|p ps]|e]; try exact (Hone _ H).
  destruct (year (last ps p) <? START_YEAR)%Z; [exact (Hone _ H)|].
  replace (20 * Z.of_nat i + 20)%Z with (20 * Z.of_nat (S i))%Z in H by lia.
  destruct (IH _ _ _ _ _ H) as (k & Hk & ->).
  exists (S k). split; [lia|].
  now rewrite add_trace_log, fetches_from_cons.
Qed.

(** X10.  Whatever the listing answers and however the crawl ends, the
    requests it has made are those for the offsets 0, 20, 40, ... in
    that order, each once and at least one, and nothing else has
    happened to the world. *)
Theorem fetch_publications_requests (fuel : nat) (w w1 : World)
    (r : result (list Publication)) :
  fetch_publications fuel w = Some (r, w1) ->
  exists k, 1 <= k <= fuel /\ w1 = add_trace (fetches k) w.
Proof.
  unfold fetch_publications. change 0%Z with (20 * Z.of_nat 0)%Z.
  apply fetch_publications_loop_requests.
Qed.

Lemma fetch_publications_requests_witness :
  exists k, 1 <= k <= 5 /\ add_trace (fetches 4) world3
                           = add_trace (fetches k) world3.
Proof.
  apply (fetch_publications_requests 5 world3 _
           (Ok [pub_of 2022 "First"; pub_of 2019 "Second"; pub_of 2018 "Third"])).
  reflexivity.
Defined.

Lemma fetch_publications_cutoff_aux (fuel : nat) (w w1 : World)
    (pubs : list Publication) :
  fetch_publications fuel w = Some (Ok pubs, w1) ->
  Forall (fun p => (2018 <= year p)%Z) pubs.
Proof.
  intros H.
  exact (fetch_publications_loop_years fuel _ _ _ _ _ H (Forall_nil _)).
Qed.

(** ** main: the successful run, and when the document changes *)

Lemma existsb_fetched_only (f : Event -> bool) (es : list Event) :
  (forall e, is_fetched e = true -> f e = false) ->
  forallb is_fetched es = true -> existsb f es = false.
Proof.
  intros Hf. induction es as [|e es IH]; [reflexivity|].
  simpl. intros H. apply andb_true_iff in H as [He Hes].
  now rewrite (Hf e He), (IH Hes).
Qed.

Lemma main_after_crawl (fuel : nat) (w w1 : World) (p : Publication)
    (ps : list Publication) :
  fetch_publications fuel w = Some (Ok (p :: ps), w1) ->
  main fuel w
  = match document w1 with
    | None => Some (Raise OSError, log ReadText w1)
    | Some doc =>
        match inject_html doc (build_html (p :: ps)) with
        | Raise e => Some (Raise e, log ReadText w1)
        | Ok updated =>
            Some (Ok 0%Z,
                  log (Printed (inserted_msg (length (p :: ps)) (papers_index w1)))
                      (log (WroteText updated)
                           (set_document updated (log ReadText w1))))
        end
    end.
Proof.
  intros Hf. unfold main, bind. rewrite Hf. unfold read_text.
  destruct (document w1) as [doc|]; [|reflexivity].
  unfold lift. destruct (inject_html doc (build_html (p :: ps))); reflexivity.
Qed.

(** X11.  When the crawl returns at least one record and the splice
    succeeds, [main] returns 0 after one read, one write and one line of
    output, in that order: the document is then the spliced text, and the
    line reports the number of records and the cutoff year. *)
Theorem main_updates_document (fuel : nat) (w w1 : World) (doc updated : str)
    (p : Publication) (ps : list Publication) :
  fetch_publications fuel w = Some (Ok (p :: ps), w1) ->
  document w = Some doc ->
  inject_html doc (build_html (p :: ps)) = Ok updated ->
  exists es,
    forallb is_fetched es = true
    /\ main fuel w
       = Some (Ok 0%Z,
               mkWorld (listing w) (Some updated) (papers_index w)
                 (trace w ++ es
                  ++ [ReadText; WroteText updated;
                      Printed (lit "Inserted "
                               ++ Py.str_of_int (Z.of_nat (S (length ps)))
                               ++ lit " publications (>= 2018) into "
                               ++ papers_index w ++ lit ".")])).
Proof.
  intros Hf Hdoc Hi.
  destruct (fetch_publications_world _ _ _ _ Hf) as (es & Hw & Hes).
  exists es. split; [exact Hes|].
  rewrite (main_after_crawl _ _ _ _ _ Hf). subst w1.
  cbn [document add_trace]. rewrite Hdoc, Hi.
  unfold log, set_document, add_trace, inserted_msg. cbn.
  now rewrite <- !app_assoc.
Qed.

Lemma main_updates_document_witness :
  exists es,
    forallb is_fetched es = true
    /\ main 5 world3
       = Some (Ok 0%Z,
               mkWorld (listing world3)
                 (Some (lit "<html>" ++ [nl]
                        ++ build_html [pub_of 2022 "First"; pub_of 2019 "Second";
                                       pub_of 2018 "Third"]
                        ++ [nl] ++ lit "</html>" ++ [nl]))
                 (papers_index world3)
                 (trace world3 ++ es
                  ++ [ReadText;
                      WroteText (lit "<html>" ++ [nl]
                        ++ build_html [pub_of 2022 "First"; pub_of 2019 "Second";
                                       pub_of 2018 "Third"]
                        ++ [nl] ++ lit "</html>" ++ [nl]);
                      Printed (lit "Inserted "
                               ++ Py.str_of_int (Z.of_nat 3)
                               ++ lit " publications (>= 2018) into "
                               ++ papers_index world3 ++ lit ".")])).
Proof.
  apply (main_updates_document 5 world3 (add_trace (fetches 4) world3)
           index_html _ (pub_of 2022 "First")
           [pub_of 2019 "Second"; pub_of 2018 "Third"]).
  - reflexivity.
  - reflexivity.
  - vm_compute. reflexivity.
Defined.

Lemma main_outcome (fuel : nat) (w w' : World)
    (r : result Z) :
  main fuel w = Some (r, w') ->
  (r <> Ok 0%Z
   /\ document w' = document w
   /\ exists es, trace w' = trace w ++ es /\ existsb is_write es = false)
  \/ (r = Ok 0%Z
      /\ exists doc pubs updated es,
           document w = Some doc
           /\ pubs <> []
           /\ Forall (fun p => (2018 <= year p)%Z) pubs
           /\ inject_html doc (build_html pubs) = Ok updated
           /\ document w' = Some updated
           /\ trace w' = trace w ++ es ++ [ReadText; WroteText updated;
                                           Printed (inserted_msg (length pubs)
                                                      (papers_index w))]
           /\ forallb is_fetched es = true).
Proof.
  intros H.
  destruct (fetch_publications fuel w) as [[[pubs|e] w1]|] eqn:Hf;
    [| |unfold main, bind in H; rewrite Hf in H; discriminate].
  - destruct (fetch_publications_world _ _ _ _ Hf) as (es & Hw & Hes).
    pose proof (existsb_fetched_only is_write es
                  ltac:(now intros []) Hes) as Hnw.
    destruct pubs as [|p ps].
    + left. unfold main, bind in H. rewrite Hf in H.
      unfold print, ret in H. injection H as <- <-. subst w1.
      split; [discriminate|]. split; [reflexivity|].
      exists (es ++ [Printed (lit "No publications fetched.")]).
      split; [unfold log, add_trace; cbn; now rewrite <- app_assoc|].
      rewrite existsb_app, Hnw. reflexivity.
    + rewrite (main_after_crawl _ _ _ _ _ Hf) in H. subst w1.
      cbn [document add_trace] in H.
      destruct (document w) as [doc|] eqn:Hdoc.
      * destruct (inject_html doc (build_html (p :: ps))) as [updated|e] eqn:Hi.
        -- right. injection H as <- <-. split; [reflexivity|].
           exists doc, (p :: ps), updated, es.
           split; [reflexivity|]. split; [discriminate|].
           split; [exact (fetch_publications_cutoff_aux _ _ _ _ Hf)|].
           split; [exact Hi|]. split; [reflexivity|].
           split; [|exact Hes].
           unfold log, set_document, add_trace. cbn. now rewrite <- !app_assoc.
        -- left. injection H as <- <-. split; [discriminate|].
           split; [exact Hdoc|]. exists (es ++ [ReadText]).
           split; [unfold log, add_trace; cbn; now rewrite <- app_assoc|].
           rewrite existsb_app, Hnw. reflexivity.
      * left. injection H as <- <-. split; [discriminate|].
        split; [exact Hdoc|]. exists (es ++ [ReadText]).
        split; [unfold log, add_trace; cbn; now rewrite <- app_assoc|].
        rewrite existsb_app, Hnw. reflexivity.
  - destruct (fetch_publications_world _ _ _ _ Hf) as (es & Hw & Hes).
    left. unfold main, bind in H. rewrite Hf in H. injection H as <- <-.
    subst w1. split; [discriminate|]. split; [reflexivity|].
    exists es. split; [reflexivity|].
    apply existsb_fetched_only; [now intros []|exact Hes].
Qed.


(** X12.  A run that does not return 0 leaves the document as it was and
    writes nothing, whether it ends with the value 1 or with an exception
    of the crawl, of the read or of the splice; and a run that returns 0
    has written once, the splice of the fragment rendered from the
    records of the crawl, all of them from 2018 on. *)
Theorem main_writes_only_on_success (fuel : nat) (w w' : World)
    (r : result Z) :
  main fuel w = Some (r, w') ->
  (r <> Ok 0%Z
   /\ document w' = document w
   /\ exists es, trace w' = trace w ++ es /\ existsb is_write es = false)
  \/ (r = Ok 0%Z
      /\ exists doc pubs updated es,
           document w = Some doc
           /\ pubs <> []
           /\ Forall (fun p => (2018 <= year p)%Z) pubs
           /\ inject_html doc (build_html pubs) = Ok updated
           /\ document w' = Some updated
           /\ trace w' = trace w ++ es ++ [ReadText; WroteText updated;
                                           Printed (inserted_msg (length pubs)
                                                      (papers_index w))]
           /\ forallb is_fetched es = true).
Proof. apply main_outcome. Qed.

Lemma main_writes_only_on_success_witness :
  (Raise (SystemExit missing_anchor_msg) <> Ok 0%Z
   /\ document (add_trace (fetches 4 ++ [ReadText]) world_bare)
      = document world_bare
   /\ exists es,
        trace (add_trace (fetches 4 ++ [ReadText]) world_bare)
        = trace world_bare ++ es
        /\ existsb is_write es = false)
  \/ (Raise (SystemExit missing_anchor_msg) = Ok 0%Z
      /\ exists doc pubs updated es,
           document world_bare = Some doc
           /\ pubs <> []
           /\ Forall (fun p => (2018 <= year p)%Z) pubs
           /\ inject_html doc (build_html pubs) = Ok updated
           /\ document (add_trace (fetches 4 ++ [ReadText]) world_bare)
              = Some updated
           /\ trace (add_trace (fetches 4 ++ [ReadText]) world_bare)
              = trace world_bare ++ es
                ++ [ReadText; WroteText updated;
                    Printed (inserted_msg (length pubs)
                               (papers_index world_bare))]
           /\ forallb is_fetched es = true).
Proof.
  apply (main_writes_only_on_success 5 world_bare).
  reflexivity.
Defined.

(** ** chunk, for any positive size *)

Section ChunkIndex.

Context {A : Type}.
Variable items : list A.
Variable size : nat.
Hypothesis size_pos : 0 < size.

Let chunks_from (fuel i : nat) : list (list A) :=
  map (fun i => slice items i (i + size))
      (range_from fuel i (length items) size).

Lemma chunks_from_count (fuel i : nat) :
  length items <= fuel + i ->
  length items - i <= length (chunks_from fuel i) * size
  /\ length (chunks_from fuel i) * size < length items - i + size.
Proof.
  unfold chunks_from. revert i; induction fuel as [|fuel IH]; intros i Hf;
    cbn [range_from].
  - simpl. lia.
  - destruct (Nat.ltb_spec i (length items)) as [Hlt|Hge]; [|simpl; lia].
    cbn [map length]. specialize (IH (i + size) ltac:(lia)).
    destruct (length (map (fun i0 => slice items i0 (i0 + size))
                          (range_from fuel (i + size) (length items) size)))
      as [|L]; rewrite ?Nat.mul_succ_l in *; lia.
Qed.

Lemma chunks_from_nth (fuel i k : nat) :
  k < length (chunks_from fuel i) ->
  nth k (chunks_from fuel i) [] = firstn size (skipn (i + k * size) items).
Proof.
  unfold chunks_from. revert i k; induction fuel as [|fuel IH]; intros i k;
    cbn [range_from].
  - simpl. lia.
  - destruct (Nat.ltb_spec i (length items)) as [Hlt|Hge]; [|simpl; lia].
    cbn [map length]. intros Hk. destruct k as [|k].
    + cbn [nth]. rewrite (slice_size items size size_pos).
      now replace (i + 0 * size) with i by lia.
    + cbn [nth]. rewrite IH by lia.
      now replace (i + size + k * size) with (i + S k * size) by lia.
Qed.

End ChunkIndex.

(** X13.  For any positive size, [chunk] yields as many slices as it
    takes to cover the list and no more ([len/size] rounded up), the
    [k]-th being [items[k*size : (k+1)*size]]; together they give back
    the list. *)
Theorem chunk_slices {A : Type} (items : list A) (size : nat) :
  0 < size ->
  length items <= length (chunk items size) * size
  /\ length (chunk items size) * size < length items + size
  /\ (forall k, k < length (chunk items size) ->
        nth k (chunk items size) []
        = firstn size (skipn (k * size) items))
  /\ concat (chunk items size) = items.
Proof.
  intros Hs.
  pose proof (chunks_from_count items size Hs (length items) 0 ltac:(lia))
    as [H1 H2].
  split; [|split; [|split]].
  - unfold chunk, range. lia.
  - unfold chunk, range. lia.
  - intros k Hk.
    exact (chunks_from_nth items size Hs (length items) 0 k Hk).
  - now apply chunk_concat.
Qed.

Lemma chunk_slices_witness :
  length [1; 2; 3; 4; 5; 6; 7] <= length (chunk [1; 2; 3; 4; 5; 6; 7] 3) * 3
  /\ length (chunk [1; 2; 3; 4; 5; 6; 7] 3) * 3 < length [1; 2; 3; 4; 5; 6; 7] + 3
  /\ (forall k, k < length (chunk [1; 2; 3; 4; 5; 6; 7] 3) ->
        nth k (chunk [1; 2; 3; 4; 5; 6; 7] 3) []
        = firstn 3 (skipn (k * 3) [1; 2; 3; 4; 5; 6; 7]))
  /\ concat (chunk [1; 2; 3; 4; 5; 6; 7] 3) = [1; 2; 3; 4; 5; 6; 7].
Proof.
  apply (chunk_slices [1; 2; 3; 4; 5; 6; 7] 3). lia.
Defined.

(** ** build_html: headings and the records under them *)

Lemma keys_setdefault_append (d : Dict) (k : Z) (pub : Publication) :
  (In k (keys d) -> keys (setdefault_append d k pub) = keys d)
  /\ (~ In k (keys d) -> keys (setdefault_append d k pub) = keys d ++ [k]).
Proof.
  induction d as [|[k' v] d [IH1 IH2]]; simpl.
  - split; [tauto|reflexivity].
  - destruct (Z.eqb_spec k' k) as [->|Hne]; simpl.
    + split; [reflexivity|]. intros H. exfalso. apply H. now left.
    + split; intros H.
      * f_equal. apply IH1. destruct H; [contradiction|assumption].
      * f_equal. apply IH2. intros Hin. apply H. now right.
Qed.

Lemma keys_fold (pubs : list Publication) :
  forall d : Dict,
    NoDup (keys d) ->
    NoDup (keys (fold_left (fun d pub => setdefault_append d (year pub) pub)
                           pubs d))
    /\ forall y,
         In y (keys (fold_left (fun d pub => setdefault_append d (year pub) pub)
                               pubs d))
         <-> In y (keys d) \/ exists p, In p pubs /\ year p = y.
Proof.
  induction pubs as [|p pubs IH]; intros d Hd; simpl.
  - split; [exact Hd|]. intros y. split; [now left|].
    intros [H|(q & [] & _)]. exact H.
  - destruct (keys_setdefault_append d (year p) p) as [K1 K2].
    destruct (in_dec Z.eq_dec (year p) (keys d)) as [Hin|Hnin].
    + destruct (IH (setdefault_append d (year p) p)) as [N M];
        [now rewrite (K1 Hin)|].
      split; [exact N|]. intros y. rewrite M, (K1 Hin). split.
      * intros [H|(q & Hq & Hy)]; [now left|right; exists q; auto].
      * intros [H|(q & [<-|Hq] & Hy)];
          [now left|left; now rewrite <- Hy|right; exists q; auto].
    + destruct (IH (setdefault_append d (year p) p)) as [N M].
      { rewrite (K2 Hnin). apply NoDup_app; [exact Hd|repeat constructor; auto|].
        intros x Hx [<-|[]]. contradiction. }
      split; [exact N|]. intros y. rewrite M, (K2 Hnin), in_app_iff. split.
      * intros [[H|[<-|[]]]|(q & Hq & Hy)];
          [now left|right; exists p; auto|right; exists q; auto].
      * intros [H|(q & [<-|Hq] & Hy)];
          [left; now left|left; right; left; exact Hy|right; exists q; auto].
Qed.

Lemma In_insert_desc (k x : Z) (l : list Z) :
  In x (insert_desc k l) <-> x = k \/ In x l.
Proof.
  induction l as [|a l IH]; simpl.
  - split; [intros [<-|[]]; now left|intros [->|[]]; now left].
  - destruct (a <? k)%Z; simpl; [split; intros [H|H]; auto|].
    rewrite IH. tauto.
Qed.

Lemma insert_desc_sorted (k : Z) (l : list Z) :
  StronglySorted (fun a b => (b < a)%Z) l -> ~ In k l ->
  StronglySorted (fun a b => (b < a)%Z) (insert_desc k l).
Proof.
  induction 1 as [|a l Hs IH Ha]; intros Hk; simpl.
  - repeat constructor.
  - destruct (Z.ltb_spec a k) as [Hlt|Hge].
    + constructor; [now constructor|].
      constructor; [exact Hlt|].
      rewrite Forall_forall in Ha |- *. intros x Hx.
      specialize (Ha x Hx). lia.
    + assert (Hak : (k < a)%Z).
      { assert (a <> k) by (intros ->; apply Hk; now left). lia. }
      constructor; [apply IH; intros Hin; apply Hk; now right|].
      rewrite Forall_forall in Ha |- *. intros x Hx.
      apply In_insert_desc in Hx as [->|Hx]; [exact Hak|now apply Ha].
Qed.

Lemma sorted_reverse_spec (ks : list Z) :
  NoDup ks ->
  StronglySorted (fun a b => (b < a)%Z) (sorted_reverse ks)
  /\ forall x, In x (sorted_reverse ks) <-> In x ks.
Proof.
  unfold sorted_reverse. induction 1 as [|k ks Hk Hnd [IHs IHi]]; simpl.
  - split; [constructor|tauto].
  - split.
    + apply insert_desc_sorted; [exact IHs|]. now rewrite IHi.
    + intros x. rewrite In_insert_desc, IHi. split; intros [H|H]; auto.
Qed.

(** X14.  The headings among the parts that [build_html] joins are those
    of the years of the input records, one heading for each year that
    occurs, from the latest year to the earliest. *)
Theorem headings_strictly_descending (pubs : list Publication) :
  exists ys,
    filter is_heading_part (build_parts pubs) = map heading_part ys
    /\ StronglySorted (fun a b => (b < a)%Z) ys
    /\ forall y, In y ys <-> exists p, In p pubs /\ year p = y.
Proof.
  exists (sorted_reverse (keys (group_by_year pubs))).
  destruct (keys_fold pubs [] (NoDup_nil _)) as [N M].
  destruct (sorted_reverse_spec _ N) as [S I].
  split; [apply filter_headings_build|]. split; [exact S|].
  intros y. unfold group_by_year. rewrite I, M.
  split; [intros [[]|H]; exact H|now right].
Qed.

Lemma flat_map_filter_cons (p : Publication) (ps : list Publication)
    (ys : list Z) :
  NoDup ys ->
  Permutation
    (flat_map (fun y => filter (fun q => (year q =? y)%Z) (p :: ps)) ys)
    (if in_dec Z.eq_dec (year p) ys
     then p :: flat_map (fun y => filter (fun q => (year q =? y)%Z) ps) ys
     else flat_map (fun y => filter (fun q => (year q =? y)%Z) ps) ys).
Proof.
  induction 1 as [|y ys Hy Hnd IH]; [reflexivity|].
  cbn [flat_map filter].
  destruct (Z.eqb_spec (year p) y) as [E|E].
  - destruct (in_dec Z.eq_dec (year p) (y :: ys)) as [_|Hn];
      [|exfalso; apply Hn; now left].
    destruct (in_dec Z.eq_dec (year p) ys) as [Hin|_];
      [exfalso; apply Hy; now rewrite <- E|].
    simpl. constructor. now apply Permutation_app_head.
  - destruct (in_dec Z.eq_dec (year p) ys) as [Hin|Hnin].
    + destruct (in_dec Z.eq_dec (year p) (y :: ys)) as [_|Hn];
        [|exfalso; apply Hn; now right].
      rewrite IH. symmetry. apply Permutation_middle.
    + destruct (in_dec Z.eq_dec (year p) (y :: ys)) as [[H|H]|_];
        [congruence|contradiction|].
      now apply Permutation_app_head.
Qed.

Lemma flat_map_filter_all (pubs : list Publication) (ys : list Z) :
  NoDup ys ->
  (forall p, In p pubs -> In (year p) ys) ->
  Permutation (flat_map (fun y => filter (fun q => (year q =? y)%Z) pubs) ys)
              pubs.
Proof.
  intros Hnd. induction pubs as [|p ps IH]; intros Hall.
  - clear. induction ys as [|y ys IHy]; [reflexivity|exact IHy].
  - rewrite (flat_map_filter_cons p ps ys Hnd).
    destruct (in_dec Z.eq_dec (year p) ys) as [_|Hn];
      [|exfalso; apply Hn, Hall; now left].
    constructor. apply IH. intros q Hq. apply Hall. now right.
Qed.

Lemma StronglySorted_NoDup (l : list Z) :
  StronglySorted (fun a b => (b < a)%Z) l -> NoDup l.
Proof.
  induction 1 as [|a l Hs IH Ha]; constructor; [|exact IH].
  intros Hin. rewrite Forall_forall in Ha. specialize (Ha a Hin). lia.
Qed.

(** X15.  The cards among the parts that [build_html] joins are the
    cards of the input records, each record once: they are the cards of
    a rearrangement of the input list. *)
Theorem build_html_visits_each_record_once (pubs : list Publication) :
  exists rs,
    filter is_card_part (build_parts pubs) = map card rs
    /\ Permutation rs pubs.
Proof.
  exists (flat_map (fun y => filter (fun q => (year q =? y)%Z) pubs)
                   (sorted_reverse (keys (group_by_year pubs)))).
  split; [apply filter_cards_build|].
  destruct (keys_fold pubs [] (NoDup_nil _)) as [N M].
  destruct (sorted_reverse_spec _ N) as [S I].
  apply flat_map_filter_all; [exact (StronglySorted_NoDup _ S)|].
  intros p Hp. apply I. unfold group_by_year. apply M. right. now exists p.
Qed.

(** ** html.escape *)

Lemma escape_char_cases (c : ascii) :
  (c = ascii_of_nat 38 /\ Py.escape_char c = lit "&amp;")
  \/ (c = ascii_of_nat 60 /\ Py.escape_char c = lit "&lt;")
  \/ (c = ascii_of_nat 62 /\ Py.escape_char c = lit "&gt;")
  \/ (c = ascii_of_nat 34 /\ Py.escape_char c = lit "&quot;")
  \/ (c = ascii_of_nat 39 /\ Py.escape_char c = lit "&#x27;")
  \/ (is_special c = false /\ Py.escape_char c = [c]).
Proof.
  unfold Py.escape_char, is_special.
  assert (Hc : forall n, nat_of_ascii c = n -> c = ascii_of_nat n)
    by (intros n <-; now rewrite ascii_nat_embedding).
  destruct (Nat.eqb_spec (nat_of_ascii c) 38) as [E|_]; [left; auto|].
  destruct (Nat.eqb_spec (nat_of_ascii c) 60) as [E|_]; [right; left; auto|].
  destruct (Nat.eqb_spec (nat_of_ascii c) 62) as [E|_];
    [right; right; left; auto|].
  destruct (Nat.eqb_spec (nat_of_ascii c) 34) as [E|_];
    [right; right; right; left; auto|].
  destruct (Nat.eqb_spec (nat_of_ascii c) 39) as [E|_];
    [right; right; right; right; left; auto|].
  right; right; right; right; right. auto.
Qed.

Lemma escape_char_no_markup (c : ascii) :
  forallb (fun x => negb (is_markup x)) (Py.escape_char c) = true.
Proof.
  destruct (escape_char_cases c)
    as [[_ ->]|[[_ ->]|[[_ ->]|[[_ ->]|[[_ ->]|[H ->]]]]]]; try reflexivity.
  simpl. rewrite andb_true_r. apply negb_true_iff.
  unfold is_special in H. unfold is_markup.
  destruct (nat_of_ascii c =? 38); [discriminate|exact H].
Qed.

(** X16.  Escaped text holds none of [<], [>], the double quote and the
    single quote, whatever the input, so a title, a venue or a link can
    neither close the attribute it is written in nor open a tag; and a
    text without these characters and without [&] is left as it is. *)
Theorem escape_neutralises_markup (s : str) :
  forallb (fun c => negb (is_markup c)) (Py.escape s) = true
  /\ (forallb (fun c => negb (is_special c)) s = true -> Py.escape s = s).
Proof.
  unfold Py.escape. split.
  - induction s as [|c s IH]; [reflexivity|].
    simpl. now rewrite forallb_app, escape_char_no_markup, IH.
  - induction s as [|c s IH]; [reflexivity|]. simpl.
    intros H. apply andb_true_iff in H as [Hc Hs].
    apply negb_true_iff in Hc.
    destruct (escape_char_cases c)
      as [[-> _]|[[-> _]|[[-> _]|[[-> _]|[[-> _]|[_ ->]]]]]];
      try discriminate.
    simpl. now rewrite (IH Hs).
Qed.

(** X17.  Escaping loses nothing: two texts with the same escaped form are
    the same text. *)
Theorem escape_injective (s1 s2 : str) :
  Py.escape s1 = Py.escape s2 -> s1 = s2.
Proof.
  unfold Py.escape. revert s2; induction s1 as [|c1 s1 IH]; intros s2 H.
  - destruct s2 as [|c2 s2]; [reflexivity|]. simpl in H.
    destruct (escape_char_cases c2)
      as [[_ E]|[[_ E]|[[_ E]|[[_ E]|[[_ E]|[_ E]]]]]];
      rewrite E in H; discriminate.
  - destruct s2 as [|c2 s2]; simpl in H.
    + destruct (escape_char_cases c1)
        as [[_ E]|[[_ E]|[[_ E]|[[_ E]|[[_ E]|[_ E]]]]]];
        rewrite E in H; discriminate.
    + destruct (escape_char_cases c1)
        as [[-> E1]|[[-> E1]|[[-> E1]|[[-> E1]|[[-> E1]|[N1 E1]]]]]];
      destruct (escape_char_cases c2)
        as [[-> E2]|[[-> E2]|[[-> E2]|[[-> E2]|[[-> E2]|[N2 E2]]]]]];
      rewrite ?E1, ?E2 in H; cbn [lit list_ascii_of_string app] in H;
      try discriminate;
      try (injection H as H; f_equal; now apply IH);
      try (injection H as <- H; discriminate);
      try (injection H as -> H; discriminate).
      injection H as -> H. f_equal. now apply IH.
Qed.

Lemma escape_injective_witness : lit "a<b" = lit "a<b".
Proof. apply escape_injective. reflexivity. Defined.

(** ** strip, as the parser uses it *)

Lemma lstrip_split (s : str) :
  exists a, s = a ++ Py.lstrip s /\ forallb Py.isspace a = true.
Proof.
  induction s as [|c s (a & Ha & Hs)]; [now exists []|].
  simpl. destruct (Py.isspace c) eqn:E.
  - exists (c :: a). simpl. rewrite E, Hs. split; [now f_equal|reflexivity].
  - now exists [].
Qed.

Lemma rstrip_split (s : str) :
  exists b, s = Py.rstrip s ++ b /\ forallb Py.isspace b = true.
Proof.
  unfold Py.rstrip. destruct (lstrip_split (rev s)) as (a & Ha & Hs).
  exists (rev a). rewrite forallb_rev. split; [|exact Hs].
  rewrite <- rev_app_distr, <- Ha. now rewrite rev_involutive.
Qed.

Lemma strip_split (s : str) :
  exists a b,
    s = a ++ Py.strip s ++ b
    /\ forallb Py.isspace a = true /\ forallb Py.isspace b = true.
Proof.
  destruct (lstrip_split s) as (a & Ha & Hsa).
  destruct (rstrip_split (Py.lstrip s)) as (b & Hb & Hsb).
  exists a, b. unfold Py.strip. now rewrite <- Hb.
Qed.

(** X19.  The title of a record is the text of the row's title link with
    whitespace taken off at the two ends and nothing else: the text is
    the title between two stretches of whitespace. *)
Theorem parse_rows_title_trimmed (soup : Soup) (pubs : list Publication) :
  parse_rows soup = Ok pubs ->
  Forall (fun p => exists row tag a b,
            In row soup /\ link_tag row = Some tag
            /\ tag_text tag = a ++ title p ++ b
            /\ forallb Py.isspace a = true /\ forallb Py.isspace b = true)
         pubs.
Proof.
  intros H. eapply Forall_impl; [|exact (parse_rows_origin _ _ H)].
  intros p (row & Hin & Hr & _). unfold record_of in Hr.
  destruct (row_year row); [|discriminate].
  destruct (link_tag row) as [tag|] eqn:Et; [|discriminate].
  injection Hr as <-. cbn [title].
  destruct (strip_split (tag_text tag)) as (a & b & Hs & Ha & Hb).
  exists row, tag, a, b. auto.
Qed.

Lemma parse_rows_title_trimmed_witness :
  Forall (fun p => exists row tag a b,
            In row [row_of "2021" "  Spaced out "] /\ link_tag row = Some tag
            /\ tag_text tag = a ++ title p ++ b
            /\ forallb Py.isspace a = true /\ forallb Py.isspace b = true)
         [pub_of 2021 "Spaced out"].
Proof.
  apply (parse_rows_title_trimmed [row_of "2021" "  Spaced out "]).
  reflexivity.
Defined.

(** ** inject_html, run twice *)

Lemma contains_firstn (p s : str) (n : nat) :
  Text.contains p s = false -> Text.contains p (firstn n s) = false.
Proof.
  intros H. destruct (Text.contains p (firstn n s)) eqn:E; [|reflexivity].
  unfold Text.contains in E.
  destruct (Text.find p (firstn n s)) as [k|] eqn:Ef; [|discriminate].
  destruct (find_Some_spec _ _ _ Ef) as (Hk & _ & _).
  destruct (startswith_inv _ _ Hk) as [t Ht].
  rewrite <- (firstn_skipn n s), <- (firstn_skipn k (firstn n s)), Ht,
    <- !app_assoc, contains_app in H.
  discriminate.
Qed.

(** X20.  For a fragment that ends with the end marker itself, splicing is
    idempotent over a marker pair: once the fragment [MARKER_START + mid +
    MARKER_END] is in place, splicing it again returns the same document. *)
Theorem inject_html_idempotent_on_closed_fragment (A old B mid : str) :
  Text.contains MARKER_START A = false ->
  Text.contains MARKER_END A = false ->
  Text.contains MARKER_END old = false ->
  Text.contains MARKER_END mid = false ->
  inject_html (A ++ MARKER_START ++ old ++ MARKER_END ++ B)
              (MARKER_START ++ mid ++ MARKER_END)
  = Ok (A ++ (MARKER_START ++ mid ++ MARKER_END) ++ B)
  /\ inject_html (A ++ (MARKER_START ++ mid ++ MARKER_END) ++ B)
                 (MARKER_START ++ mid ++ MARKER_END)
     = Ok (A ++ (MARKER_START ++ mid ++ MARKER_END) ++ B).
Proof.
  intros HA1 HA2 Ho Hm. split.
  - now apply inject_html_over_markers.
  - replace (A ++ (MARKER_START ++ mid ++ MARKER_END) ++ B)
      with (A ++ MARKER_START ++ mid ++ MARKER_END ++ B) at 1
      by (now rewrite <- !app_assoc).
    now apply inject_html_over_markers.
Qed.

Lemma inject_html_idempotent_on_closed_fragment_witness :
  inject_html (lit "a" ++ MARKER_START ++ lit "old" ++ MARKER_END ++ lit "b")
              (MARKER_START ++ lit "new" ++ MARKER_END)
  = Ok (lit "a" ++ (MARKER_START ++ lit "new" ++ MARKER_END) ++ lit "b")
  /\ inject_html
       (lit "a" ++ (MARKER_START ++ lit "new" ++ MARKER_END) ++ lit "b")
       (MARKER_START ++ lit "new" ++ MARKER_END)
     = Ok (lit "a" ++ (MARKER_START ++ lit "new" ++ MARKER_END) ++ lit "b").
Proof.
  apply inject_html_idempotent_on_closed_fragment; reflexivity.
Defined.

(** X21.  Two runs on a document without markers that holds the anchor:
    the first inserts the rendered fragment and a newline before the
    anchor, the second finds the markers, replaces up to the end marker
    and so leaves two newlines between the fragment and the anchor. *)
Theorem inject_html_insert_then_replace (existing : str) (idx : nat)
    (pubs : list Publication) :
  no_marker existing ->
  Text.find anchor existing = Some idx ->
  inject_html existing (build_html pubs)
  = Ok (firstn idx existing ++ build_html pubs ++ [nl] ++ skipn idx existing)
  /\ inject_html
       (firstn idx existing ++ build_html pubs ++ [nl] ++ skipn idx existing)
       (build_html pubs)
     = Ok (firstn idx existing ++ build_html pubs ++ [nl; nl]
           ++ skipn idx existing).
Proof.
  intros [H1 H2] Hf. split.
  - unfold inject_html. rewrite H1, (contains_true _ _ _ Hf).
    unfold index. now rewrite Hf.
  - rewrite build_html_shape at 1.
    replace (firstn idx existing
             ++ (MARKER_START ++ [nl] ++ body pubs ++ MARKER_END ++ [nl])
             ++ [nl] ++ skipn idx existing)
      with (firstn idx existing ++ MARKER_START ++ ([nl] ++ body pubs)
            ++ MARKER_END ++ [nl; nl] ++ skipn idx existing)
      by (now rewrite <- !app_assoc).
    apply inject_html_over_markers.
    + now apply contains_firstn.
    + now apply contains_firstn.
    + apply (safe_no_marker _ (body_safe pubs)).
Qed.

Lemma inject_html_insert_then_replace_witness :
  inject_html (lit "<body>" ++ anchor) (build_html pubs1)
  = Ok (firstn 6 (lit "<body>" ++ anchor) ++ build_html pubs1 ++ [nl]
        ++ skipn 6 (lit "<body>" ++ anchor))
  /\ inject_html
       (firstn 6 (lit "<body>" ++ anchor) ++ build_html pubs1 ++ [nl]
        ++ skipn 6 (lit "<body>" ++ anchor))
       (build_html pubs1)
     = Ok (firstn 6 (lit "<body>" ++ anchor) ++ build_html pubs1 ++ [nl; nl]
           ++ skipn 6 (lit "<body>" ++ anchor)).
Proof.
  apply (inject_html_insert_then_replace (lit "<body>" ++ anchor) 6 pubs1).
  - split; reflexivity.
  - reflexivity.
Defined.
